(** * PIX Notifier service worker: a shallow embedding of [service-worker.js]

    The worker is a set of event listeners ([install], [activate], [fetch],
    [push], [notificationclick], [message]).  Every listener is a chain of
    promises over the browser's service-worker interfaces: [CacheStorage] and
    [Cache], [fetch], [Clients], [ServiceWorkerRegistration.showNotification],
    [MessagePort].  The embedding keeps that shape:

    - the browser is a [World] (the state the worker can change or observe
      being changed) together with a read-only [Platform] (what the network
      answers, whether the cache takes a write, which clients are open, which
      optional interfaces exist);
    - a promise is a [Task]: a function from the world to an [Outcome]
      (fulfilled with a value, or rejected with an error), the new world, and
      the list of promises the code started but neither returned nor awaited;
    - [.then] is [bind], [.catch] is [catch_].

    What the model fixes:

    - a handler runs from its event to the settling of the promise it hands
      to the platform ([respondWith], [waitUntil]) with no other event in
      between; the cache write that the fetch handler starts and hands to
      nobody runs at any later moment, or never ([System], [step], [run]).
      [fetch_event] is the one schedule in which that write runs at once;
    - a cache matches a request by its method and its URL without the
      fragment ([Request_eqb]); request headers, and with them [Vary] and
      the options of [match], are not modelled;
    - the origin of a platform holds no [#];
    - [console.log] output is recorded in [console], apart from the calls
      into the platform, which are recorded in order in [effects]. *)

From Stdlib Require Import String Ascii List Bool Arith Lia.
Import ListNotations.
Open Scope string_scope.
Open Scope list_scope.
Set Warnings "-register-all".

(** ** Strings *)

(** [String.prototype.includes]: [needle] occurs somewhere in [hay].  The
    worker only searches for ASCII needles, for which searching the UTF-8
    bytes of a string and searching its UTF-16 code units agree. *)
Fixpoint includes (needle hay : string) : bool :=
  if String.prefix needle hay then true
  else match hay with
       | EmptyString => false
       | String _ rest => includes needle rest
       end.

(** ** Values exchanged with pages *)

(** Data that arrives through [postMessage] (the structured-clone subset the
    worker looks at). *)
Inductive JsValue : Type :=
| JUndefined
| JNull
| JBool (b : bool)
| JNum (n : nat)
| JStr (s : string)
| JObj (fields : list (string * JsValue)).

(** JavaScript truthiness, as used by [event.data && ...]. *)
Definition truthy (v : JsValue) : bool :=
  match v with
  | JUndefined | JNull => false
  | JBool b => b
  | JNum n => negb (Nat.eqb n 0)
  | JStr s => negb (String.eqb s "")
  | JObj _ => true
  end.

Fixpoint assoc_get {A : Type} (k : string) (l : list (string * A)) : option A :=
  match l with
  | [] => None
  | (k', v) :: rest => if String.eqb k k' then Some v else assoc_get k rest
  end.

(** Property read [v.k] on a value that is neither [null] nor [undefined]:
    an own property of an object, [undefined] otherwise (primitives have no
    property called [type]). *)
Definition get_prop (v : JsValue) (k : string) : JsValue :=
  match v with
  | JObj fields => match assoc_get k fields with
                   | Some x => x
                   | None => JUndefined
                   end
  | _ => JUndefined
  end.

(** [v === s] for a string literal [s]. *)
Definition strict_eq_str (v : JsValue) (s : string) : bool :=
  match v with
  | JStr s' => String.eqb s' s
  | _ => false
  end.

(** ** Requests and responses *)

Record Request : Type := mkRequest {
  method : string;
  url : string
}.

(** The URL without its fragment: what precedes the first [#]. *)
Fixpoint strip_fragment (u : string) : string :=
  match u with
  | EmptyString => EmptyString
  | String c rest =>
      if Ascii.eqb c "#" then EmptyString else String c (strip_fragment rest)
  end.

(** The request matching of the [Cache] interface ([caches.match],
    [cache.put]): same method, same URL once the fragments are dropped. *)
Definition Request_eqb (a b : Request) : bool :=
  String.eqb (method a) (method b) &&
  String.eqb (strip_fragment (url a)) (strip_fragment (url b)).

(** What a response carries: the snapshot a cache stores. *)
Record Response : Type := mkResponse {
  status : nat;
  statusText : string;
  headers : list (string * string);
  body : string
}.

(** A [Response] object.  Its contents are fixed; what changes is whether its
    body stream has been read, which the world tracks per object identity
    ([oid]).  [response.clone()] gives a second object with the same contents
    and a stream of its own. *)
Record ResponseObj : Type := mkObj {
  oid : nat;
  snapshot : Response
}.

(** ** Caches *)

(** A [Cache]: request/response pairs in insertion order. *)
Definition Cache : Type := list (Request * Response).

(** [CacheStorage]: named caches in creation order. *)
Definition CacheStorage : Type := list (string * Cache).

(** ** Clients, ports, notifications *)

Inductive ClientKind : Type := KWindow | KWorker | KSharedWorker.

Record Client : Type := mkClient {
  client_id : nat;
  client_url : string;
  client_kind : ClientKind;
  client_controlled : bool
}.

Record NotificationAction : Type := mkAction {
  action : string;
  action_title : string;
  action_icon : string
}.

Record NotificationOptions : Type := mkOptions {
  opt_body : string;
  opt_icon : string;
  opt_badge : string;
  opt_vibrate : list nat;
  opt_tag : string;
  opt_requireInteraction : bool;
  opt_actions : list NotificationAction
}.

(** ** Effects and the world *)

(** Calls into the platform, recorded in the order they are made. *)
Inductive Effect : Type :=
| NetFetch (r : Request)
| CacheDelete (name : string)
| ClientsClaim
| SkipWaiting
| ShowNotification (title : string) (options : NotificationOptions)
| NotificationClose
| ClientFocus (c : Client)
| OpenWindow (target : string)
| PortPostMessage (port : nat) (message : JsValue).

(** One argument of a [console.log] call. *)
Inductive LogArg : Type :=
| LText (s : string)
| LData (v : JsValue)
| LEvent.

(** Work the code starts without returning or awaiting its promise: the
    interceptor's [caches.open(name).then(cache => { cache.put(req, resp) })]. *)
Inductive Detached : Type :=
| OpenThenPut (name : string) (req : Request) (resp : ResponseObj).

Record World : Type := mkWorld {
  storage : CacheStorage;
  heap : list bool;          (* per Response object: has its body been read? *)
  console : list (list LogArg);
  effects : list Effect
}.

Inductive JsError : Type :=
| TypeError (msg : string)
| NetworkError.

(** What the worker cannot decide: the environment of one event. *)
Record Platform : Type := mkPlatform {
  origin : string;                          (* the worker's own origin *)
  network : Request -> option Response;     (* [None]: the fetch rejects *)
  put_accepts : Request -> Response -> bool;(* does [Cache.put] take the pair? *)
  open_clients : list Client;
  has_openWindow : bool;                    (* is [clients.openWindow] defined? *)
  origin_no_fragment : strip_fragment origin = origin
                                            (* an origin holds no [#] *)
}.

(** ** Promises as tasks *)

Inductive Outcome (A : Type) : Type :=
| Fulfilled (a : A)
| Rejected (e : JsError).
Arguments Fulfilled {A} a.
Arguments Rejected {A} e.

Record Result (A : Type) : Type := mkResult {
  outcome : Outcome A;
  spawned : list Detached;
  world : World
}.
Arguments mkResult {A}.
Arguments outcome {A}.
Arguments spawned {A}.
Arguments world {A}.

Definition Task (A : Type) : Type := World -> Result A.

Definition ret {A : Type} (a : A) : Task A :=
  fun w => mkResult (Fulfilled a) [] w.

(** A rejected promise; also a listener whose synchronous code throws. *)
Definition throw {A : Type} (e : JsError) : Task A :=
  fun w => mkResult (Rejected e) [] w.

(** [p.then(f)] *)
Definition bind {A B : Type} (p : Task A) (f : A -> Task B) : Task B :=
  fun w =>
    let r := p w in
    match outcome r with
    | Fulfilled a =>
        let r' := f a (world r) in
        mkResult (outcome r') (spawned r ++ spawned r') (world r')
    | Rejected e => mkResult (Rejected e) (spawned r) (world r)
    end.

(** [p.catch(h)] *)
Definition catch_ {A : Type} (p : Task A) (h : JsError -> Task A) : Task A :=
  fun w =>
    let r := p w in
    match outcome r with
    | Fulfilled a => r
    | Rejected e =>
        let r' := h e (world r) in
        mkResult (outcome r') (spawned r ++ spawned r') (world r')
    end.

(** Start a promise and drop it. *)
Definition detach (d : Detached) : Task unit :=
  fun w => mkResult (Fulfilled tt) [d] w.

Notation "x <- p ;; k" := (bind p (fun x => k))
  (at level 100, p at next level, right associativity).
Notation "p ;;; k" := (bind p (fun _ => k))
  (at level 100, right associativity).

(** ** Platform primitives *)

Definition emit (e : Effect) : Task unit :=
  fun w => mkResult (Fulfilled tt) []
             (mkWorld (storage w) (heap w) (console w) (effects w ++ [e])).

Definition console_log (args : list LogArg) : Task unit :=
  fun w => mkResult (Fulfilled tt) []
             (mkWorld (storage w) (heap w) (console w ++ [args]) (effects w)).

Definition set_storage (s : CacheStorage) (w : World) : World :=
  mkWorld s (heap w) (console w) (effects w).

(** A fresh [Response] object with an unread body. *)
Definition new_object (r : Response) : Task ResponseObj :=
  fun w => mkResult (Fulfilled (mkObj (length (heap w)) r)) []
             (mkWorld (storage w) (heap w ++ [false]) (console w) (effects w)).

(** The object the next [new_object] gives in world [w]. *)
Definition first_object (w : World) (r : Response) : ResponseObj :=
  mkObj (length (heap w)) r.

(** [response.bodyUsed] *)
Definition bodyUsed (w : World) (o : ResponseObj) : bool :=
  match nth_error (heap w) (oid o) with
  | Some b => b
  | None => false
  end.

(** Reading the body of object [i] sets its flag. *)
Fixpoint mark_read (i : nat) (h : list bool) {struct h} : list bool :=
  match h with
  | [] => []
  | b :: rest =>
      match i with
      | 0 => true :: rest
      | S j => b :: mark_read j rest
      end
  end.

(** *** Cache lookups.  A cache is keyed by the request: its method and its
    URL without the fragment ([Request_eqb]). *)

Definition cache_match (q : Request) (c : Cache) : option Response :=
  match find (fun e => Request_eqb q (fst e)) c with
  | Some e => Some (snd e)
  | None => None
  end.

(** [caches.match] searches the caches in creation order. *)
Fixpoint storage_match (q : Request) (st : CacheStorage) : option Response :=
  match st with
  | [] => None
  | (_, c) :: rest =>
      match cache_match q c with
      | Some r => Some r
      | None => storage_match q rest
      end
  end.

(** [caches.match(request)]: [undefined] ([None]) or a fresh object holding
    the stored snapshot. *)
Definition caches_match (q : Request) : Task (option ResponseObj) :=
  fun w =>
    match storage_match q (storage w) with
    | Some r => (o <- new_object r ;; ret (Some o)) w
    | None => ret None w
    end.

Definition has_cache (name : string) (st : CacheStorage) : bool :=
  existsb (fun e => String.eqb name (fst e)) st.

(** [caches.open(name)]: creates the cache when there is none of that name.
    The handle is the name. *)
Definition caches_open (name : string) : Task string :=
  fun w =>
    if has_cache name (storage w) then ret name w
    else ret name (set_storage (storage w ++ [(name, [])]) w).

(** [Cache.put] on the storage: the entries the request matches are replaced
    by the new pair. *)
Definition put_entry (name : string) (q : Request) (r : Response)
    (st : CacheStorage) : CacheStorage :=
  map (fun nc : string * Cache =>
         if String.eqb (fst nc) name
         then (fst nc,
               filter (fun e => negb (Request_eqb q (fst e))) (snd nc) ++ [(q, r)])
         else nc) st.

(** [cache.put(request, response)].  The platform decides whether it takes
    the pair ([put_accepts]): the Cache interface rejects, with a
    [TypeError], a request whose method is not [GET] and a response of status
    206, and a write can fail for want of space.  A response whose body was
    already read is rejected as well.  Otherwise the body of [resp] is read
    and the snapshot stored. *)
Definition cache_put (env : Platform) (cache : string) (q : Request)
    (resp : ResponseObj) : Task unit :=
  fun w =>
    if negb (put_accepts env q (snapshot resp))
    then throw (TypeError "Failed to execute 'put' on 'Cache'") w
    else if bodyUsed w resp
    then throw (TypeError "Response body is already used") w
    else ret tt (mkWorld (put_entry cache q (snapshot resp) (storage w))
                         (mark_read (oid resp) (heap w))
                         (console w) (effects w)).

(** The rule of the Cache interface for [put]: only [GET] requests, and no
    partial (206) responses. *)
Definition cache_api_put_accepts (q : Request) (r : Response) : bool :=
  String.eqb (method q) "GET" && negb (Nat.eqb (status r) 206).

(** [caches.keys()] *)
Definition caches_keys : Task (list string) :=
  fun w => ret (map fst (storage w)) w.

(** [caches.delete(name)] *)
Definition caches_delete (name : string) : Task bool :=
  fun w =>
    mkResult (Fulfilled (has_cache name (storage w))) []
      (mkWorld (filter (fun e => negb (String.eqb name (fst e))) (storage w))
               (heap w) (console w) (effects w ++ [CacheDelete name])).

(** [fetch(request)] *)
Definition net_fetch (env : Platform) (q : Request) : Task ResponseObj :=
  emit (NetFetch q) ;;;
  match network env q with
  | Some r => new_object r
  | None => throw NetworkError
  end.

(** [response.clone()] *)
Definition response_clone (resp : ResponseObj) : Task ResponseObj :=
  fun w =>
    if bodyUsed w resp
    then throw (TypeError "Response body is already used") w
    else new_object (snapshot resp) w.

(** [Promise.all]: every promise of the list has been started already, so all
    of them run; the result rejects with the first rejection. *)
Fixpoint promise_all {A : Type} (ps : list (Task A)) : Task (list A) :=
  match ps with
  | [] => ret []
  | p :: rest =>
      fun w =>
        let r := p w in
        let rs := promise_all rest (world r) in
        mkResult
          match outcome r, outcome rs with
          | Fulfilled a, Fulfilled l => Fulfilled (a :: l)
          | Rejected e, _ => Rejected e
          | _, Rejected e => Rejected e
          end
          (spawned r ++ spawned rs) (world rs)
  end.

Definition skipWaiting : Task unit := emit SkipWaiting.
Definition clients_claim : Task unit := emit ClientsClaim.

Definition is_window (c : Client) : bool :=
  match client_kind c with
  | KWindow => true
  | _ => false
  end.

(** ['focus' in client]: [focus] is a method of [WindowClient], the interface
    of window clients, and of no other client. *)
Definition has_focus (c : Client) : bool := is_window c.

(** [clients.matchAll({ type: 'window', includeUncontrolled })]: the window
    clients of the worker's origin, the uncontrolled ones too when asked. *)
Definition clients_matchAll_window (env : Platform) (includeUncontrolled : bool)
    : Task (list Client) :=
  ret (filter (fun c => is_window c && (includeUncontrolled || client_controlled c))
              (open_clients env)).

Definition client_focus (c : Client) : Task unit := emit (ClientFocus c).
Definition clients_openWindow (target : string) : Task unit := emit (OpenWindow target).
Definition showNotification (title : string) (options : NotificationOptions)
    : Task unit := emit (ShowNotification title options).
Definition port_postMessage (port : nat) (message : JsValue) : Task unit :=
  emit (PortPostMessage port message).

(** ** The worker *)

Definition CACHE_NAME : string := "pix-notifier-v1".
Definition urlsToCache : list string := ["/"; "/index.html"; "/manifest.json"].

(** *** install (lines 13-24) *)

(** An ok status, as [Cache.addAll] requires of every response. *)
Definition ok_status (s : nat) : bool :=
  Nat.leb 200 s && Nat.leb s 299 && negb (Nat.eqb s 206).

(** [cache.addAll(urls)]: fetches every URL (resolved against the worker's
    origin); if one fetch fails or answers with a status that is not ok,
    nothing is written and the promise rejects. *)
Definition addAll_fetch (env : Platform) (u : string) : Task (Request * Response) :=
  let q := mkRequest "GET" (String.append (origin env) u) in
  resp <- net_fetch env q ;;
  if ok_status (status (snapshot resp)) then ret (q, snapshot resp)
  else throw (TypeError "Request failed").

Definition cache_addAll (env : Platform) (cache : string) (urls : list string)
    : Task unit :=
  pairs <- promise_all (map (addAll_fetch env) urls) ;;
  fun w =>
    ret tt (set_storage
              (fold_left (fun st qr => put_entry cache (fst qr) (snd qr) st)
                         pairs (storage w)) w).

Definition on_install (env : Platform) : Task unit :=
  console_log [LText "[Service Worker] Instalando..."] ;;;
  (cache <- caches_open CACHE_NAME ;;
   console_log [LText "[Service Worker] Cache aberto"] ;;;
   cache_addAll env cache urlsToCache) ;;;
  skipWaiting.

(** *** activate (lines 27-42) *)

(** The callback of [cacheNames.map]: a deletion promise for a stale cache,
    [undefined] ([None]) for the current one. *)
Definition delete_if_stale (cacheName : string) : Task (option bool) :=
  if negb (String.eqb cacheName CACHE_NAME) then
    console_log [LText "[Service Worker] Removendo cache antigo:"; LText cacheName] ;;;
    deleted <- caches_delete cacheName ;;
    ret (Some deleted)
  else ret None.

Definition on_activate : Task unit :=
  console_log [LText "[Service Worker] Ativando..."] ;;;
  (cacheNames <- caches_keys ;;
   promise_all (map delete_if_stale cacheNames)) ;;;
  clients_claim.

(** *** fetch, cache first (lines 45-83) *)

Definition offline_response : Response :=
  mkResponse 503 "Service Unavailable" [("Content-Type", "text/plain")]
             "Offline - Sem conexão".

Definition on_fetch (env : Platform) (request : Request) : Task ResponseObj :=
  catch_
    (cached <- caches_match request ;;
     match cached with
     | Some response => ret response
     | None =>
         response <- net_fetch env request ;;
         if includes "/api/" (url request) then ret response
         else
           (if Nat.eqb (status (snapshot response)) 200 then
              responseToCache <- response_clone response ;;
              detach (OpenThenPut CACHE_NAME request responseToCache)
            else ret tt) ;;;
           ret response
     end)
    (fun _ => new_object offline_response).

(** The detached write, when it runs. *)
Definition run_detached (env : Platform) (d : Detached) : Task unit :=
  match d with
  | OpenThenPut name q resp =>
      cache <- caches_open name ;;
      cache_put env cache q resp
  end.

(** Let the detached promises settle; a rejection of one of them is reported
    nowhere. *)
Definition settle (env : Platform) (ds : list Detached) (w : World) : World :=
  fold_left (fun w' d => world (run_detached env d w')) ds w.

(** One fetch event in the schedule where the writes the handler started
    run at once, before any other event: what the page receives, and the
    world after those writes.  The other schedules are the runs of [step]
    below. *)
Definition fetch_event (env : Platform) (request : Request) (w : World)
    : Outcome ResponseObj * World :=
  let r := on_fetch env request w in
  (outcome r, settle env (spawned r) (world r)).

(** *** push (lines 86-113) *)

Record PushMessageData : Type := mkPushData { text : string }.

Definition push_options (data : option PushMessageData) : NotificationOptions :=
  {| opt_body := match data with
                 | Some d => text d
                 | None => "Novo PIX gerado!"
                 end;
     opt_icon := "https://cdn-icons-png.flaticon.com/512/825/825454.png";
     opt_badge := "https://cdn-icons-png.flaticon.com/512/825/825454.png";
     opt_vibrate := [200; 100; 200; 100; 200];
     opt_tag := "pix-notification";
     opt_requireInteraction := true;
     opt_actions :=
       [ mkAction "view" "Ver Detalhes"
                  "https://cdn-icons-png.flaticon.com/512/709/709612.png";
         mkAction "close" "Fechar"
                  "https://cdn-icons-png.flaticon.com/512/458/458594.png" ] |}.

Definition on_push (data : option PushMessageData) : Task unit :=
  console_log [LText "[Service Worker] Push recebido:"; LEvent] ;;;
  showNotification "💰 Novo PIX!" (push_options data).

(** *** notificationclick (lines 116-141) *)

(** The [for] loop over the client list, then the fallback after it. *)
Fixpoint focus_or_open (env : Platform) (clientList : list Client) : Task unit :=
  match clientList with
  | client :: rest =>
      if includes "index.html" (client_url client) && has_focus client
      then client_focus client
      else focus_or_open env rest
  | [] =>
      if has_openWindow env then clients_openWindow "/" else ret tt
  end.

Definition on_notificationclick (env : Platform) (event_action : string)
    : Task unit :=
  console_log [LText "[Service Worker] Notificação clicada:"; LText event_action] ;;;
  emit NotificationClose ;;;
  if String.eqb event_action "view" then
    clientList <- clients_matchAll_window env true ;;
    focus_or_open env clientList
  else ret tt.

(** The test of the loop above, on one client. *)
Definition focusable_entry (c : Client) : bool :=
  includes "index.html" (client_url c) && has_focus c.

(** *** message (lines 149-160) *)

Definition PONG : JsValue :=
  JObj [("type", JStr "PONG"); ("status", JStr "Service Worker ativo")].

(** [event.data && event.data.type === t] *)
Definition data_type_is (data : JsValue) (t : string) : bool :=
  truthy data && strict_eq_str (get_prop data "type") t.

Definition on_message (data : JsValue) (ports : list nat) : Task unit :=
  console_log [LText "[Service Worker] Mensagem recebida:"; LData data] ;;;
  (if data_type_is data "SKIP_WAITING" then skipWaiting else ret tt) ;;;
  if data_type_is data "PING" then
    match nth_error ports 0 with
    | Some port => port_postMessage port PONG
    | None =>
        throw (TypeError "Cannot read properties of undefined (reading 'postMessage')")
    end
  else ret tt.

(** *** sync (lines 163-185) *)

(** [checkPixStatus]: an [async] function whose [try] block logs and returns
    a resolved promise; its [catch] block logs the error and rejects with
    it. *)
Definition checkPixStatus : Task unit :=
  catch_
    (console_log [LText "[Service Worker] Verificando status dos PIX..."] ;;;
     ret tt)
    (fun error =>
       console_log [LText "[Service Worker] Erro ao verificar PIX:"] ;;;
       throw error).

Definition on_sync (tag : string) : Task unit :=
  console_log [LText "[Service Worker] Background sync:"; LText tag] ;;;
  if String.eqb tag "sync-pix" then checkPixStatus else ret tt.

(** *** notificationclose (lines 144-146) *)

Definition on_notificationclose : Task unit :=
  console_log [LText "[Service Worker] Notificação fechada"].

(** *** script load (lines 188-189) *)

Definition script_load : Task unit :=
  console_log [LText "[Service Worker] Script carregado e pronto"] ;;;
  console_log [LText "[Service Worker] Cache:"; LText CACHE_NAME].

(** ** The worker between events

    A handler runs from its event to the settling of the promise it hands to
    the platform ([respondWith], [waitUntil]).  The promises a handler
    started without handing them over, the cache write of the fetch handler,
    are [pending]: each of them runs at some later moment, before or after
    any other event, or never.  For the fetch handler this covers the events
    that arrive while it awaits the network, as far as the storage goes: all
    it does once the network has answered is to start the write. *)

Record System : Type := mkSystem {
  sys_world : World;
  pending : list Detached
}.

Inductive Event : Type :=
| EInstall (env : Platform)
| EActivate
| EFetch (env : Platform) (request : Request)
| EPush (data : option PushMessageData)
| ENotificationClick (env : Platform) (event_action : string)
| ENotificationClose
| EMessage (data : JsValue) (ports : list nat)
| ESync (tag : string)
| ESettle (env : Platform) (k : nat).      (* the [k]-th pending promise runs *)

(** A handler runs: the world moves on, what it started is pending. *)
Definition handle {A : Type} (t : Task A) (s : System) : System :=
  let r := t (sys_world s) in
  mkSystem (world r) (pending s ++ spawned r).

Definition remove_nth {A : Type} (k : nat) (l : list A) : list A :=
  firstn k l ++ skipn (S k) l.

Definition step (s : System) (ev : Event) : System :=
  match ev with
  | EInstall env => handle (on_install env) s
  | EActivate => handle on_activate s
  | EFetch env request => handle (on_fetch env request) s
  | EPush data => handle (on_push data) s
  | ENotificationClick env event_action =>
      handle (on_notificationclick env event_action) s
  | ENotificationClose => handle on_notificationclose s
  | EMessage data ports => handle (on_message data ports) s
  | ESync tag => handle (on_sync tag) s
  | ESettle env k =>
      match nth_error (pending s) k with
      | Some d => mkSystem (world (run_detached env d (sys_world s)))
                           (remove_nth k (pending s))
      | None => s
      end
  end.

Definition run (evs : list Event) (s : System) : System :=
  fold_left step evs s.

(** A world in which nothing is pending. *)
Definition initial (w : World) : System := mkSystem w [].

(** The steps of the request interceptor: a fetch event, and a write it
    started running. *)
Definition fetch_step (ev : Event) : bool :=
  match ev with
  | EFetch _ _ | ESettle _ _ => true
  | _ => false
  end.

Definition written_cache (d : Detached) : string :=
  match d with OpenThenPut name _ _ => name end.

Definition written_request (d : Detached) : Request :=
  match d with OpenThenPut _ q _ => q end.

Definition written_object (d : Detached) : ResponseObj :=
  match d with OpenThenPut _ _ o => o end.

(** ** Notions used to state the properties *)


(** The storage once [caches.open(name)] has run. *)
Definition opened (name : string) (st : CacheStorage) : CacheStorage :=
  if has_cache name st then st else st ++ [(name, [])].

(** What the cache called [name] answers to a request. *)
Definition lookup_in (name : string) (q : Request) (st : CacheStorage)
    : option Response :=
  match find (fun nc : string * Cache => String.eqb (fst nc) name) st with
  | Some nc => cache_match q (snd nc)
  | None => None
  end.


(** Every cache entry of a storage, with the name of its cache. *)
Definition all_entries (st : CacheStorage) : list (string * Request * Response) :=
  flat_map (fun nc : string * Cache =>
              map (fun e => (fst nc, fst e, snd e)) (snd nc)) st.

(** The origin of a URL, [scheme://authority].  The worker never computes an
    origin; this is the notion of the specification, needed to say what a
    cross-origin request is. *)
Fixpoint until_slash (s : string) : string :=
  match s with
  | EmptyString => EmptyString
  | String c rest =>
      if Ascii.eqb c "/" then EmptyString else String c (until_slash rest)
  end.

Fixpoint url_origin (u : string) : string :=
  match u with
  | EmptyString => EmptyString
  | String ":" (String "/" (String "/" authority)) =>
      String.append "://" (until_slash authority)
  | String c rest => String c (url_origin rest)
  end.

Definition same_origin (env : Platform) (q : Request) : bool :=
  String.eqb (url_origin (url q)) (origin env).

(** [cacheName !== CACHE_NAME]: a cache of another version. *)
Definition stale (cacheName : string) : bool :=
  negb (String.eqb cacheName CACHE_NAME).

(** The world of the install handler once the cache is open, before the
    fetches of [addAll]. *)
Definition install_opened (w : World) : World :=
  mkWorld (if has_cache CACHE_NAME (storage w) then storage w
           else storage w ++ [(CACHE_NAME, [])])
          (heap w)
          ((console w ++ [[LText "[Service Worker] Instalando..."]])
             ++ [[LText "[Service Worker] Cache aberto"]])
          (effects w).

(** ** Concrete scenarios

    Worlds and platforms on which the properties below are exercised. *)

Definition empty_world : World := mkWorld [] [] [] [].

Definition hit_world : World :=
  mkWorld [(CACHE_NAME,
            [(mkRequest "GET" "https://pix.example/index.html",
              mkResponse 200 "OK" [("Content-Type", "text/html")] "<html>v1</html>")])]
          [] [] [].

(** A platform whose network always fails. *)
Definition offline_platform : Platform :=
  mkPlatform "https://pix.example" (fun _ => None) cache_api_put_accepts [] true
             eq_refl.

(** A platform that answers every request with status 200. *)
Definition online_platform : Platform :=
  mkPlatform "https://pix.example"
             (fun q => Some (mkResponse 200 "OK" [] (url q)))
             cache_api_put_accepts [] true
             eq_refl.

(** A form post to a page of the application. *)
Definition post_request : Request :=
  mkRequest "POST" "https://pix.example/contato".

(** An image of another origin (the icon the notifications use). *)
Definition icon_request : Request :=
  mkRequest "GET" "https://cdn-icons-png.flaticon.com/512/825/825454.png".

Definition page_request : Request :=
  mkRequest "GET" "https://pix.example/app.js".

(** A storage left behind by earlier versions of the worker. *)
Definition stale_world : World :=
  mkWorld [("pix-notifier-v0",
            [(mkRequest "GET" "https://pix.example/index.html",
              mkResponse 200 "OK" [] "<html>v0</html>")]);
           ("pix-fonts", [])]
          [] [] [].

(** The application open in two windows, one of them on the entry document;
    a worker client besides. *)
Definition app_windows : list Client :=
  [ mkClient 1 "https://pix.example/" KWindow true;
    mkClient 2 "https://pix.example/index.html" KWindow false;
    mkClient 3 "https://pix.example/index.html" KWorker true ].

Definition two_windows_platform : Platform :=
  mkPlatform "https://pix.example" (fun _ => None) cache_api_put_accepts
             app_windows true
             eq_refl.

(** A platform whose [clients] object has no [openWindow]; the application is
    open at its root. *)
Definition legacy_platform : Platform :=
  mkPlatform "https://pix.example" (fun _ => None) cache_api_put_accepts
             [mkClient 1 "https://pix.example/" KWindow true] false
             eq_refl.

Definition ping_message : JsValue := JObj [("type", JStr "PING")].

(** A platform whose server answers every request with status 404. *)
Definition missing_platform : Platform :=
  mkPlatform "https://pix.example"
             (fun q => Some (mkResponse 404 "Not Found" [] "not found"))
             cache_api_put_accepts [] true
             eq_refl.

Definition skip_waiting_message : JsValue := JObj [("type", JStr "SKIP_WAITING")].

(** The manifest as the requests [addAll] makes on platform [env]. *)
Definition manifest_requests (env : Platform) : list Request :=
  map (fun u => mkRequest "GET" (String.append (origin env) u)) urlsToCache.

(** A platform whose server lacks the web manifest. *)
Definition no_manifest_platform : Platform :=
  mkPlatform "https://pix.example"
             (fun q => if includes "manifest.json" (url q)
                       then Some (mkResponse 404 "Not Found" [] "not found")
                       else Some (mkResponse 200 "OK" [] (url q)))
             cache_api_put_accepts [] true
             eq_refl.


Definition unknown_message : JsValue := JObj [("type", JStr "HELLO")].

(** A storage that holds caches of other versions only. *)
Definition other_versions_world : World :=
  mkWorld [("pix-notifier-v0",
            [(mkRequest "GET" "https://pix.example/index.html",
              mkResponse 200 "OK" [] "<html>v0</html>")])]
          [] [] [].

(** A page script is requested twice before the first write has run, then an
    API call is made; the writes run afterwards, the second one while the
    script is requested a third time with the network down. *)
Definition browsing_session : list Event :=
  [ EFetch online_platform page_request;
    EFetch online_platform page_request;
    EFetch online_platform (mkRequest "GET" "https://pix.example/api/pix/42");
    ESettle online_platform 0;
    EFetch offline_platform page_request;
    ESettle online_platform 0 ].

(** A platform whose server answers every request with status 203. *)
Definition proxied_platform : Platform :=
  mkPlatform "https://pix.example"
             (fun q => Some (mkResponse 203 "Non-Authoritative Information" []
                                        (url q)))
             cache_api_put_accepts [] true
             eq_refl.

(** The application served from a host called [api]. *)
Definition api_host_platform : Platform :=
  mkPlatform "https://api"
             (fun q => Some (mkResponse 200 "OK" [] (url q)))
             cache_api_put_accepts [] true
             eq_refl.

(** A platform whose server answers every request with a new version. *)
Definition updated_platform : Platform :=
  mkPlatform "https://pix.example"
             (fun q => Some (mkResponse 200 "OK" [] "v2"))
             cache_api_put_accepts [] true
             eq_refl.

(** ** Notions about the worker between events *)

(** A task stays within [R]: it starts no detached work and takes every
    world to one that [R] relates to it. *)
Definition within {A : Type} (R : World -> World -> Prop) (t : Task A) : Prop :=
  forall w, R w (world (t w)) /\ spawned (t w) = [].

(** The storage and the response objects are as they were. *)
Definition same_store (w w' : World) : Prop :=
  storage w' = storage w /\ heap w' = heap w.

(** The response objects of [w] are objects of [w'], read or unread as they
    were. *)
Definition heap_extends (w w' : World) : Prop :=
  exists l, heap w' = heap w ++ l.

(** No entry of a cache of another name matches the request. *)
Definition unanswered_elsewhere (q : Request) (st : CacheStorage) : Prop :=
  forall n q' r, In (n, q', r) (all_entries st) -> n <> CACHE_NAME ->
                 Request_eqb q q' = false.

(** The objects the pending writes will read. *)
Definition pending_objects (s : System) : list nat :=
  map (fun d => oid (written_object d)) (pending s).

(** The pending writes are for the current cache, each of an object of its
    own whose body is unread; the objects of [kept] are unread too and
    belong to no pending write. *)
Definition writes_sound (kept : list nat) (s : System) : Prop :=
  Forall (fun d => written_cache d = CACHE_NAME) (pending s) /\
  Forall (fun i => nth_error (heap (sys_world s)) i = Some false)
         (kept ++ pending_objects s) /\
  NoDup (kept ++ pending_objects s).

(** The entry [(n, q, r)] as the interceptor writes it in a run [evs]: in the
    current cache, for a request outside [/api/] that one of the fetch events
    of the run was for, from the status-200 answer of the network to it. *)
Definition interceptor_entry (evs : list Event) (n : string) (q : Request)
    (r : Response) : Prop :=
  n = CACHE_NAME /\ status r = 200 /\ includes "/api/" (url q) = false /\
  exists env, In (EFetch env q) evs /\ network env q = Some r.

(** The entry [(n, q, r)] as an install of the run [evs] writes it: in the
    current cache, for a resource of the manifest, from an answer of the
    network with an ok status. *)
Definition install_entry (evs : list Event) (n : string) (q : Request)
    (r : Response) : Prop :=
  n = CACHE_NAME /\
  exists env, In (EInstall env) evs /\ In q (manifest_requests env) /\
              network env q = Some r /\ ok_status (status r) = true.

(** A pending write that the interceptor started in the run [evs]. *)
Definition started_in (evs : list Event) (d : Detached) : Prop :=
  interceptor_entry evs (written_cache d) (written_request d)
                    (snapshot (written_object d)).

(** * Properties *)

(** ** Cache storage *)

Section CacheFacts.

Lemma Request_eqb_refl (q : Request) : Request_eqb q q = true.
Proof.
  unfold Request_eqb. now rewrite !String.eqb_refl.
Qed.

Lemma Request_eqb_sym (a b : Request) : Request_eqb a b = Request_eqb b a.
Proof.
  unfold Request_eqb.
  now rewrite (String.eqb_sym (method a)), (String.eqb_sym (strip_fragment (url a))).
Qed.

(** Requests that match each other match the same requests. *)
Lemma Request_eqb_congr (a b c : Request) :
  Request_eqb a b = true -> Request_eqb a c = Request_eqb b c.
Proof.
  unfold Request_eqb. rewrite andb_true_iff, !String.eqb_eq.
  now intros [-> ->].
Qed.

(** A request without fragment matches only requests that are itself once
    their fragment is dropped. *)
Lemma Request_eqb_spec (a b : Request) :
  Request_eqb a b = true <->
  method a = method b /\ strip_fragment (url a) = strip_fragment (url b).
Proof.
  unfold Request_eqb. now rewrite andb_true_iff, !String.eqb_eq.
Qed.

Lemma cache_match_app (q : Request) (c1 c2 : Cache) :
  cache_match q (c1 ++ c2) =
  match cache_match q c1 with
  | Some r => Some r
  | None => cache_match q c2
  end.
Proof.
  unfold cache_match.
  induction c1 as [|e c1 IH]; simpl; [reflexivity|].
  destruct (Request_eqb q (fst e)); [reflexivity|exact IH].
Qed.

(** Removing the entries a request matches leaves none it matches. *)
Lemma cache_match_purged (q : Request) (c : Cache) :
  cache_match q (filter (fun e => negb (Request_eqb q (fst e))) c) = None.
Proof.
  unfold cache_match.
  induction c as [|e c IH]; simpl; [reflexivity|].
  destruct (Request_eqb q (fst e)) eqn:E; simpl; [exact IH|].
  now rewrite E.
Qed.

Lemma storage_match_app (q : Request) (s1 s2 : CacheStorage) :
  storage_match q (s1 ++ s2) =
  match storage_match q s1 with
  | Some r => Some r
  | None => storage_match q s2
  end.
Proof.
  induction s1 as [|[n c] s1 IH]; simpl; [reflexivity|].
  destruct (cache_match q c); [reflexivity|exact IH].
Qed.


Lemma has_cache_app (name : string) (s1 s2 : CacheStorage) :
  has_cache name (s1 ++ s2) = has_cache name s1 || has_cache name s2.
Proof.
  unfold has_cache. apply existsb_app.
Qed.

Lemma put_entry_names (name : string) (q : Request) (r : Response)
    (st : CacheStorage) :
  map fst (put_entry name q r st) = map fst st.
Proof.
  unfold put_entry. rewrite map_map. apply map_ext.
  intros [n c]; simpl. now destruct (String.eqb n name).
Qed.

(** [put] adds one entry and no other. *)
Lemma put_entry_entries (name : string) (q : Request) (r : Response)
    (st : CacheStorage) (e : string * Request * Response) :
  In e (all_entries (put_entry name q r st)) ->
  In e (all_entries st) \/ e = (name, q, r).
Proof.
  unfold all_entries.
  induction st as [|[n c] st IH]; simpl; [tauto|].
  rewrite !in_app_iff. intros [H|H].
  - destruct (String.eqb n name) eqn:Hn; simpl in H.
    + apply String.eqb_eq in Hn. subst n.
      rewrite map_app, in_app_iff in H. destruct H as [H|H].
      * left; left. apply in_map_iff in H. destruct H as [x [<- Hx]].
        apply filter_In in Hx. apply in_map_iff. exists x. tauto.
      * simpl in H. destruct H as [<-|[]]. now right.
    + left; left. exact H.
  - destruct (IH H) as [H'|H']; [left; right; exact H'|right; exact H'].
Qed.

End CacheFacts.

(** ** Response objects *)

Section ObjectFacts.

Lemma nth_error_fresh (h : list bool) (l : list bool) :
  nth_error (h ++ false :: l) (length h) = Some false.
Proof.
  rewrite nth_error_app2 by lia. now rewrite Nat.sub_diag.
Qed.

Lemma mark_read_other (i j : nat) (h : list bool) :
  i <> j -> nth_error (mark_read i h) j = nth_error h j.
Proof.
  revert i j. induction h as [|b h IH]; intros i j Hij; simpl.
  - reflexivity.
  - destruct i as [|i], j as [|j]; simpl; try reflexivity; try lia.
    apply IH. lia.
Qed.

Lemma mark_read_same (i : nat) (h : list bool) :
  i < length h -> nth_error (mark_read i h) i = Some true.
Proof.
  revert i. induction h as [|b h IH]; intros i Hi; simpl in *; [lia|].
  destruct i as [|i]; simpl; [reflexivity|]. apply IH. lia.
Qed.

End ObjectFacts.

(** ** The request interceptor, path by path *)

Section Interceptor.

Variable env : Platform.
Variable request : Request.
Variable w : World.

Lemma on_fetch_hit (stored : Response) :
  storage_match request (storage w) = Some stored ->
  on_fetch env request w =
  mkResult (Fulfilled (first_object w stored)) []
    (mkWorld (storage w) (heap w ++ [false]) (console w) (effects w)).
Proof.
  intros Hhit.
  unfold on_fetch, catch_, bind, caches_match; simpl.
  rewrite Hhit. reflexivity.
Qed.

Lemma on_fetch_offline :
  storage_match request (storage w) = None ->
  network env request = None ->
  on_fetch env request w =
  mkResult (Fulfilled (first_object w offline_response)) []
    (mkWorld (storage w) (heap w ++ [false]) (console w)
             (effects w ++ [NetFetch request])).
Proof.
  intros Hmiss Hdown.
  unfold on_fetch, catch_, bind, caches_match, net_fetch; simpl.
  rewrite Hmiss; simpl. unfold bind; simpl. rewrite Hdown. reflexivity.
Qed.

Lemma on_fetch_api (resp : Response) :
  storage_match request (storage w) = None ->
  network env request = Some resp ->
  includes "/api/" (url request) = true ->
  on_fetch env request w =
  mkResult (Fulfilled (first_object w resp)) []
    (mkWorld (storage w) (heap w ++ [false]) (console w)
             (effects w ++ [NetFetch request])).
Proof.
  intros Hmiss Hnet Hapi.
  unfold on_fetch, catch_, bind, caches_match, net_fetch; simpl.
  rewrite Hmiss; simpl. unfold bind; simpl. rewrite Hnet; simpl.
  rewrite Hapi. reflexivity.
Qed.

Lemma on_fetch_not_200 (resp : Response) :
  storage_match request (storage w) = None ->
  network env request = Some resp ->
  includes "/api/" (url request) = false ->
  status resp <> 200 ->
  on_fetch env request w =
  mkResult (Fulfilled (first_object w resp)) []
    (mkWorld (storage w) (heap w ++ [false]) (console w)
             (effects w ++ [NetFetch request])).
Proof.
  intros Hmiss Hnet Hapi Hst.
  unfold on_fetch, catch_, bind, caches_match, net_fetch; simpl.
  rewrite Hmiss; simpl. unfold bind; simpl. rewrite Hnet; simpl.
  rewrite Hapi. unfold bind; simpl.
  apply Nat.eqb_neq in Hst. rewrite Hst. reflexivity.
Qed.

Lemma on_fetch_200 (resp : Response) :
  storage_match request (storage w) = None ->
  network env request = Some resp ->
  includes "/api/" (url request) = false ->
  status resp = 200 ->
  on_fetch env request w =
  mkResult (Fulfilled (first_object w resp))
    [OpenThenPut CACHE_NAME request (mkObj (S (length (heap w))) resp)]
    (mkWorld (storage w) (heap w ++ [false; false]) (console w)
             (effects w ++ [NetFetch request])).
Proof.
  intros Hmiss Hnet Hapi Hst.
  unfold on_fetch, catch_, bind, caches_match, net_fetch; simpl.
  rewrite Hmiss; simpl. unfold bind; simpl. rewrite Hnet; simpl.
  rewrite Hapi. unfold bind; simpl.
  rewrite Hst; simpl.
  unfold response_clone, bodyUsed; simpl.
  rewrite nth_error_fresh; simpl.
  rewrite length_app, <- app_assoc; simpl.
  now rewrite Nat.add_1_r.
Qed.

End Interceptor.

(** ** The detached cache write *)

Section DetachedWrite.

Variable env : Platform.

Lemma all_entries_app (s1 s2 : CacheStorage) :
  all_entries (s1 ++ s2) = all_entries s1 ++ all_entries s2.
Proof.
  unfold all_entries. apply flat_map_app.
Qed.


(** Whatever happens to the write, it adds at most its own pair. *)
Lemma run_detached_entries (name : string) (q : Request) (o : ResponseObj)
    (w : World) (e : string * Request * Response) :
  In e (all_entries (storage (world (run_detached env (OpenThenPut name q o) w)))) ->
  In e (all_entries (storage w)) \/
  (e = (name, q, snapshot o) /\ put_accepts env q (snapshot o) = true).
Proof.
  unfold run_detached, bind, caches_open, cache_put.
  destruct (has_cache name (storage w)) eqn:Hhas; simpl;
    unfold bodyUsed; simpl;
    destruct (put_accepts env q (snapshot o)) eqn:Hacc; simpl;
    try destruct (nth_error (heap w) (oid o)) as [[|]|]; simpl;
    intros H;
    try (apply put_entry_entries in H; destruct H as [H|H]; [|now right]);
    try (rewrite all_entries_app in H; simpl in H; rewrite app_nil_r in H);
    now left.
Qed.

End DetachedWrite.

(** ** Claims about the request interceptor *)

(** C1.  When the cache storage holds an entry for the request, the page
    receives that entry, no network call is made (the effect trace is
    unchanged, whatever the network would have answered), and neither the
    storage nor any pending write changes. *)
Theorem fetch_cache_hit_skips_network (env : Platform) (request : Request)
    (w : World) (stored : Response) :
  storage_match request (storage w) = Some stored ->
  exists (o : ResponseObj) (w' : World),
    fetch_event env request w = (Fulfilled o, w') /\
    snapshot o = stored /\
    effects w' = effects w /\
    storage w' = storage w /\
    spawned (on_fetch env request w) = [].
Proof.
  intros Hhit. unfold fetch_event.
  rewrite (on_fetch_hit env request w stored Hhit); simpl.
  eexists _, _. repeat split.
Qed.

Lemma fetch_cache_hit_skips_network_witness :
  exists (o : ResponseObj) (w' : World),
    fetch_event offline_platform
      (mkRequest "GET" "https://pix.example/index.html") hit_world
    = (Fulfilled o, w') /\
    snapshot o = mkResponse 200 "OK" [("Content-Type", "text/html")] "<html>v1</html>" /\
    effects w' = effects hit_world /\
    storage w' = storage hit_world /\
    spawned (on_fetch offline_platform
               (mkRequest "GET" "https://pix.example/index.html") hit_world) = [].
Proof.
  apply (fetch_cache_hit_skips_network offline_platform
           (mkRequest "GET" "https://pix.example/index.html") hit_world).
  reflexivity.
Defined.

(** C2.  When no cache holds the request and the network call fails, the
    page still receives a response (the promise given to [respondWith] is
    fulfilled, not rejected): status 503 with plain-text content. *)
Theorem fetch_offline_fallback (env : Platform) (request : Request) (w : World) :
  storage_match request (storage w) = None ->
  network env request = None ->
  exists (o : ResponseObj) (w' : World),
    fetch_event env request w = (Fulfilled o, w') /\
    status (snapshot o) = 503 /\
    assoc_get "Content-Type" (headers (snapshot o)) = Some "text/plain" /\
    body (snapshot o) = "Offline - Sem conexão" /\
    storage w' = storage w.
Proof.
  intros Hmiss Hdown. unfold fetch_event.
  rewrite (on_fetch_offline env request w Hmiss Hdown); simpl.
  eexists _, _. repeat split.
Qed.

Lemma fetch_offline_fallback_witness :
  exists (o : ResponseObj) (w' : World),
    fetch_event offline_platform
      (mkRequest "GET" "https://pix.example/style.css") hit_world
    = (Fulfilled o, w') /\
    status (snapshot o) = 503 /\
    assoc_get "Content-Type" (headers (snapshot o)) = Some "text/plain" /\
    body (snapshot o) = "Offline - Sem conexão" /\
    storage w' = storage hit_world.
Proof.
  apply (fetch_offline_fallback offline_platform
           (mkRequest "GET" "https://pix.example/style.css") hit_world);
    reflexivity.
Defined.

(** C3.  A request whose URL contains [/api/] leaves the cache storage as it
    was and starts no cache write, whatever the network answers (any status,
    or a failure) and whatever the storage held. *)
Theorem api_request_never_cached (env : Platform) (request : Request) (w : World) :
  includes "/api/" (url request) = true ->
  storage (snd (fetch_event env request w)) = storage w /\
  spawned (on_fetch env request w) = [].
Proof.
  intros Hapi. unfold fetch_event.
  destruct (storage_match request (storage w)) as [stored|] eqn:Hm.
  - rewrite (on_fetch_hit env request w stored Hm); simpl. now split.
  - destruct (network env request) as [resp|] eqn:Hnet.
    + rewrite (on_fetch_api env request w resp Hm Hnet Hapi); simpl. now split.
    + rewrite (on_fetch_offline env request w Hm Hnet); simpl. now split.
Qed.

Lemma api_request_never_cached_witness :
  storage (snd (fetch_event online_platform
                  (mkRequest "GET" "https://pix.example/api/pix/42") empty_world))
  = storage empty_world /\
  spawned (on_fetch online_platform
             (mkRequest "GET" "https://pix.example/api/pix/42") empty_world) = [].
Proof.
  apply (api_request_never_cached online_platform
           (mkRequest "GET" "https://pix.example/api/pix/42") empty_world).
  reflexivity.
Defined.

(** ** Cache lifecycle *)

Section Lifecycle.

Lemma has_cache_In (name : string) (st : CacheStorage) :
  has_cache name st = true <-> In name (map fst st).
Proof.
  unfold has_cache. rewrite existsb_exists, in_map_iff. split.
  - intros [e [He Hn]]. apply String.eqb_eq in Hn. exists e. now split.
  - intros [e [Hn He]]. exists e. split; [exact He|]. now apply String.eqb_eq.
Qed.

Lemma filter_twice {A : Type} (f g : A -> bool) (l : list A) :
  filter f (filter g l) = filter (fun x => g x && f x) l.
Proof.
  induction l as [|x l IH]; simpl; [reflexivity|].
  destruct (g x); simpl; [destruct (f x)|]; now rewrite IH.
Qed.

(** The sweep of [activate]: the promises [cacheNames.map] creates, run to
    completion.  None rejects; the stale names among [names] are deleted, in
    order, and nothing else is touched. *)
Lemma sweep_spec (names : list string) (w : World) :
  let r := promise_all (map delete_if_stale names) w in
  (exists l, outcome r = Fulfilled l) /\
  storage (world r)
  = filter (fun e => negb (existsb (fun n => stale n && String.eqb n (fst e)) names))
           (storage w) /\
  effects (world r) = effects w ++ map CacheDelete (filter stale names).
Proof.
  revert w. induction names as [|n names IH]; intros w; simpl.
  - split; [now exists []|]. split; [|now rewrite app_nil_r].
    symmetry. apply forallb_filter_id. now apply forallb_forall.
  - specialize (IH (world (delete_if_stale n w))).
    simpl in IH. destruct IH as ([l Hl] & Hst & Heff).
    unfold delete_if_stale in *. fold (stale n) in *.
    destruct (stale n) eqn:Hn; simpl in *.
    + rewrite Hl. split; [now eexists|]. split.
      * rewrite Hst, filter_twice. apply filter_ext.
        intros e. now rewrite negb_orb.
      * rewrite Heff, <- app_assoc. reflexivity.
    + rewrite Hl. split; [now eexists|]. split; assumption.
Qed.

(** [activate] on any storage: it is fulfilled, keeps exactly the caches
    named [CACHE_NAME], and claims the clients after the last deletion. *)
Lemma on_activate_spec (w : World) :
  let r := on_activate w in
  outcome r = Fulfilled tt /\
  storage (world r)
  = filter (fun e => String.eqb (fst e) CACHE_NAME) (storage w) /\
  effects (world r)
  = effects w ++ map CacheDelete (filter stale (map fst (storage w)))
              ++ [ClientsClaim].
Proof.
  unfold on_activate, bind, caches_keys; simpl.
  set (w0 := mkWorld (storage w) (heap w)
                     (console w ++ [[LText "[Service Worker] Ativando..."]])
                     (effects w)).
  destruct (sweep_spec (map fst (storage w)) w0) as ([l Hl] & Hst & Heff).
  rewrite Hl; simpl. split; [reflexivity|]. split.
  - rewrite Hst. unfold w0; simpl. apply filter_ext_in.
    intros e He.
    destruct (String.eqb (fst e) CACHE_NAME) eqn:Hcur.
    + apply negb_true_iff, not_true_iff_false.
      rewrite existsb_exists. intros [n [_ Hn]].
      apply andb_true_iff in Hn. destruct Hn as [Hstale Heq].
      apply String.eqb_eq in Heq. subst n.
      unfold stale in Hstale. now rewrite Hcur in Hstale.
    + apply negb_false_iff, existsb_exists. exists (fst e). split.
      * now apply in_map.
      * unfold stale. now rewrite Hcur, String.eqb_refl.
  - rewrite Heff. unfold w0; simpl. now rewrite <- app_assoc.
Qed.

Lemma filter_current_absent (st : CacheStorage) :
  ~ In CACHE_NAME (map fst st) ->
  filter (fun e => String.eqb (fst e) CACHE_NAME) st = [].
Proof.
  induction st as [|[n c] st IH]; simpl; [reflexivity|].
  intros Hnot. destruct (String.eqb n CACHE_NAME) eqn:Hn.
  - apply String.eqb_eq in Hn. elim Hnot. now left.
  - apply IH. tauto.
Qed.

(** In a storage whose names are distinct, the caches that survive the sweep
    are one cache when [CACHE_NAME] was present. *)
Lemma filter_current_unique (st : CacheStorage) :
  NoDup (map fst st) ->
  In CACHE_NAME (map fst st) ->
  map fst (filter (fun e => String.eqb (fst e) CACHE_NAME) st) = [CACHE_NAME].
Proof.
  induction st as [|[n c] st IH]; simpl; [tauto|].
  intros Hnd Hin. apply NoDup_cons_iff in Hnd. destruct Hnd as [Hfresh Hnd].
  destruct (String.eqb n CACHE_NAME) eqn:Hn; simpl.
  - apply String.eqb_eq in Hn. subst n.
    now rewrite filter_current_absent.
  - apply IH; [exact Hnd|]. destruct Hin as [Heq|Hin]; [|exact Hin].
    subst n. now rewrite String.eqb_refl in Hn.
Qed.

End Lifecycle.

(** ** Install *)

Section Install.

Variable env : Platform.

(** Promises that leave the storage alone, run together, leave it alone. *)
Lemma promise_all_storage {A : Type} (ps : list (Task A)) :
  (forall p, In p ps -> forall w, storage (world (p w)) = storage w) ->
  forall w, storage (world (promise_all ps w)) = storage w.
Proof.
  induction ps as [|p ps IH]; intros Hps w; simpl; [reflexivity|].
  rewrite IH by (intros q Hq; apply Hps; now right).
  apply Hps. now left.
Qed.

Lemma addAll_fetch_storage (u : string) (w : World) :
  storage (world (addAll_fetch env u w)) = storage w.
Proof.
  unfold addAll_fetch, bind, net_fetch, bind; simpl.
  destruct (network env _) as [r|]; simpl; [|reflexivity].
  now destruct (ok_status (status r)).
Qed.

Lemma fold_put_names (cache : string) (pairs : list (Request * Response))
    (st : CacheStorage) :
  map fst (fold_left (fun s qr => put_entry cache (fst qr) (snd qr) s) pairs st)
  = map fst st.
Proof.
  revert st. induction pairs as [|qr pairs IH]; intros st; simpl; [reflexivity|].
  now rewrite IH, put_entry_names.
Qed.

(** [addAll] creates and deletes no cache, whether it succeeds or not. *)
Lemma cache_addAll_names (cache : string) (urls : list string) (w : World) :
  map fst (storage (world (cache_addAll env cache urls w))) = map fst (storage w).
Proof.
  unfold cache_addAll, bind.
  assert (Hkeep : storage (world (promise_all (map (addAll_fetch env) urls) w))
                  = storage w).
  { apply promise_all_storage. intros p Hp w'.
    apply in_map_iff in Hp. destruct Hp as [u [<- _]].
    apply addAll_fetch_storage. }
  destruct (outcome (promise_all (map (addAll_fetch env) urls) w)); simpl.
  - now rewrite fold_put_names, Hkeep.
  - now rewrite Hkeep.
Qed.

(** One fetch of [addAll]: what it answers and what it does. *)
Lemma addAll_fetch_spec (u : string) (w : World) :
  let q := mkRequest "GET" (String.append (origin env) u) in
  let r := addAll_fetch env u w in
  effects (world r) = effects w ++ [NetFetch q] /\
  forall qr, outcome r = Fulfilled qr ->
             fst qr = q /\ network env q = Some (snd qr) /\
             ok_status (status (snd qr)) = true.
Proof.
  unfold addAll_fetch, bind, net_fetch, bind; simpl.
  destruct (network env _) as [resp|]; simpl.
  - destruct (ok_status (status resp)) eqn:Hok; simpl.
    + split; [reflexivity|]. intros qr [= <-]. now repeat split.
    + split; [reflexivity|discriminate].
  - split; [reflexivity|discriminate].
Qed.

(** All the fetches of [addAll] are made, one per URL; when all succeed the
    pairs to write are the requests with the answers to them. *)
Lemma addAll_fetches_spec (urls : list string) (w : World) :
  let qs := map (fun u => mkRequest "GET" (String.append (origin env) u)) urls in
  let r := promise_all (map (addAll_fetch env) urls) w in
  effects (world r) = effects w ++ map NetFetch qs /\
  forall pairs, outcome r = Fulfilled pairs ->
                map fst pairs = qs /\
                Forall (fun qr => network env (fst qr) = Some (snd qr) /\
                                  ok_status (status (snd qr)) = true) pairs.
Proof.
  revert w. induction urls as [|u urls IH]; intros w; simpl.
  - split; [now rewrite app_nil_r|]. intros pairs [= <-]. now split.
  - destruct (addAll_fetch_spec u w) as [Heff1 Hout1].
    specialize (IH (world (addAll_fetch env u w))). simpl in IH.
    destruct IH as [Heff Hout]. split.
    + rewrite Heff, Heff1, <- app_assoc. reflexivity.
    + intros pairs Hpairs.
      destruct (outcome (addAll_fetch env u w)) as [qr|e]; [|discriminate].
      destruct (outcome (promise_all _ _)) as [l|e]; [|discriminate].
      injection Hpairs as <-.
      destruct (Hout1 qr eq_refl) as (Hq & Hnet & Hok).
      destruct (Hout l eq_refl) as (Hqs & Hall). simpl. split.
      * now rewrite Hq, Hqs.
      * constructor; [|exact Hall]. rewrite Hq. now split.
Qed.

(** [put] keeps every request answered that was answered before. *)
Lemma put_entry_keeps_match (name : string) (q q' : Request) (r' : Response)
    (st : CacheStorage) :
  storage_match q st <> None ->
  storage_match q (put_entry name q' r' st) <> None.
Proof.
  induction st as [|[n c] st IH]; simpl; [tauto|].
  intros Hsome.
  destruct (String.eqb n name) eqn:Hn; simpl.
  - rewrite cache_match_app.
    destruct (cache_match q c) as [x|] eqn:Hc.
    + destruct (Request_eqb q q') eqn:Hqq.
      * destruct (cache_match q (filter _ c)); [discriminate|].
        unfold cache_match; simpl. now rewrite Hqq.
      * assert (Hkept : cache_match q
                  (filter (fun e => negb (Request_eqb q' (fst e))) c) <> None).
        { clear -Hc Hqq. unfold cache_match in *.
          induction c as [|e c IHc]; simpl in *; [discriminate|].
          destruct (Request_eqb q (fst e)) eqn:He.
          - assert (Hne : Request_eqb q' (fst e) = false).
            { rewrite Request_eqb_sym, <- (Request_eqb_congr _ _ q' He).
              exact Hqq. }
            rewrite Hne; simpl. now rewrite He.
          - destruct (Request_eqb q' (fst e)); simpl; [now apply IHc|].
            rewrite He. now apply IHc. }
        now destruct (cache_match q (filter _ c)).
    + destruct (cache_match q (filter _ c)); [discriminate|].
      destruct (cache_match q [(q', r')]); [discriminate|].
      now apply IH.
  - destruct (cache_match q c); [discriminate|]. now apply IH.
Qed.

(** After [put] into an existing cache the request is answered. *)
Lemma put_entry_match_some (name : string) (q : Request) (r : Response)
    (st : CacheStorage) :
  has_cache name st = true ->
  storage_match q (put_entry name q r st) <> None.
Proof.
  induction st as [|[n c] st IH]; simpl; [discriminate|].
  intros Hhas. destruct (String.eqb n name) eqn:Hn; simpl.
  - rewrite cache_match_app, cache_match_purged.
    unfold cache_match; simpl. rewrite Request_eqb_refl. discriminate.
  - destruct (cache_match q c); [discriminate|]. apply IH.
    rewrite String.eqb_sym, Hn in Hhas. exact Hhas.
Qed.

Lemma has_cache_put (name cache : string) (q : Request) (r : Response)
    (st : CacheStorage) :
  has_cache name (put_entry cache q r st) = has_cache name st.
Proof.
  destruct (has_cache name st) eqn:H.
  - apply has_cache_In. rewrite put_entry_names. now apply has_cache_In.
  - apply not_true_iff_false. intros H'. apply has_cache_In in H'.
    rewrite put_entry_names in H'. apply has_cache_In in H'. congruence.
Qed.

(** The bulk write answers every request it wrote. *)
Lemma fold_put_match (cache : string) (pairs : list (Request * Response))
    (st : CacheStorage) (q : Request) :
  has_cache cache st = true ->
  In q (map fst pairs) ->
  storage_match q
    (fold_left (fun s qr => put_entry cache (fst qr) (snd qr) s) pairs st)
  <> None.
Proof.
  assert (Hkeep : forall l s, storage_match q s <> None ->
            storage_match q
              (fold_left (fun s qr => put_entry cache (fst qr) (snd qr) s) l s)
            <> None).
  { induction l as [|qr l IHl]; intros s Hs; simpl; [exact Hs|].
    apply IHl. now apply put_entry_keeps_match. }
  revert st. induction pairs as [|qr pairs IH]; intros st Hhas Hin; simpl.
  - destruct Hin.
  - destruct Hin as [<-|Hin].
    + apply Hkeep. now apply put_entry_match_some.
    + apply IH; [|exact Hin]. now rewrite has_cache_put.
Qed.

(** [addAll] in terms of its fetches: it writes all the pairs, or none. *)
Lemma cache_addAll_spec (cache : string) (urls : list string) (w : World) :
  let P := promise_all (map (addAll_fetch env) urls) w in
  (forall pairs, outcome P = Fulfilled pairs ->
     outcome (cache_addAll env cache urls w) = Fulfilled tt /\
     storage (world (cache_addAll env cache urls w))
     = fold_left (fun s qr => put_entry cache (fst qr) (snd qr) s) pairs
                 (storage w) /\
     effects (world (cache_addAll env cache urls w)) = effects (world P)) /\
  (forall e, outcome P = Rejected e ->
     outcome (cache_addAll env cache urls w) = Rejected e /\
     world (cache_addAll env cache urls w) = world P).
Proof.
  assert (Hkeep : storage (world (promise_all (map (addAll_fetch env) urls) w))
                  = storage w).
  { apply promise_all_storage. intros p Hp w'.
    apply in_map_iff in Hp. destruct Hp as [u [<- _]].
    apply addAll_fetch_storage. }
  unfold cache_addAll, bind.
  destruct (outcome (promise_all (map (addAll_fetch env) urls) w)); simpl.
  - split; [|discriminate]. intros pairs [= <-]. rewrite Hkeep. now repeat split.
  - split; [discriminate|]. intros e' [= <-]. now split.
Qed.

(** A promise that is fulfilled without starting detached work hands its
    value and world to the continuation. *)
Lemma bind_fulfilled_eq {A B : Type} (p : Task A) (f : A -> Task B)
    (w w' : World) (a : A) :
  p w = mkResult (Fulfilled a) [] w' -> bind p f w = f a w'.
Proof.
  intros H. unfold bind. rewrite H; simpl. now destruct (f a w').
Qed.

Lemma bind_same_result {A B : Type} (p q : Task A) (f : A -> Task B)
    (w w' : World) :
  p w = q w' -> bind p f w = bind q f w'.
Proof.
  intros H. unfold bind. now rewrite H.
Qed.

(** The install handler: [addAll] on the opened cache, then [skipWaiting]. *)
Lemma on_install_eq (w : World) :
  on_install env w
  = bind (cache_addAll env CACHE_NAME urlsToCache) (fun _ => skipWaiting)
         (install_opened w).
Proof.
  unfold on_install.
  rewrite (bind_fulfilled_eq (console_log _) _ w _ tt eq_refl).
  apply bind_same_result.
  set (w0 := mkWorld (storage w) (heap w)
               (console w ++ [[LText "[Service Worker] Instalando..."]])
               (effects w)).
  rewrite (bind_fulfilled_eq (caches_open CACHE_NAME) _ w0
             (if has_cache CACHE_NAME (storage w) then w0
              else set_storage (storage w ++ [(CACHE_NAME, [])]) w0)
             CACHE_NAME).
  - rewrite (bind_fulfilled_eq (console_log _) _ _ _ tt eq_refl).
    unfold install_opened, w0.
    now destruct (has_cache CACHE_NAME (storage w)).
  - unfold caches_open, w0; simpl.
    now destruct (has_cache CACHE_NAME (storage w)).
Qed.

(** After [install], fulfilled or not, the cache of the current version
    exists and no other name was added. *)
Lemma on_install_names (w : World) :
  map fst (storage (world (on_install env w)))
  = map fst (storage w)
    ++ (if has_cache CACHE_NAME (storage w) then [] else [CACHE_NAME]).
Proof.
  rewrite on_install_eq.
  assert (Hnames : map fst (storage (world (cache_addAll env CACHE_NAME urlsToCache
                                              (install_opened w))))
                   = map fst (storage w)
                     ++ (if has_cache CACHE_NAME (storage w) then []
                         else [CACHE_NAME])).
  { rewrite cache_addAll_names. unfold install_opened; cbn [storage].
    destruct (has_cache CACHE_NAME (storage w));
      [now rewrite app_nil_r|now rewrite map_app]. }
  unfold bind.
  generalize dependent (cache_addAll env CACHE_NAME urlsToCache (install_opened w)).
  intros r Hnames.
  destruct (outcome r); simpl; exact Hnames.
Qed.

(** The install handler in terms of the fetches of [addAll]. *)
Lemma on_install_spec (w : World) :
  let P := promise_all (map (addAll_fetch env) urlsToCache) (install_opened w) in
  (forall pairs, outcome P = Fulfilled pairs ->
     outcome (on_install env w) = Fulfilled tt /\
     storage (world (on_install env w))
     = fold_left (fun s qr => put_entry CACHE_NAME (fst qr) (snd qr) s) pairs
                 (storage (install_opened w)) /\
     effects (world (on_install env w)) = effects (world P) ++ [SkipWaiting]) /\
  (forall e, outcome P = Rejected e ->
     outcome (on_install env w) = Rejected e /\
     world (on_install env w) = world P).
Proof.
  rewrite on_install_eq.
  destruct (cache_addAll_spec CACHE_NAME urlsToCache (install_opened w))
    as [Hok Hfail].
  unfold bind.
  generalize dependent (cache_addAll env CACHE_NAME urlsToCache (install_opened w)).
  intros r Hok Hfail. split.
  - intros pairs HP. destruct (Hok pairs HP) as (Ho & Hs & He).
    rewrite Ho. cbn [outcome world skipWaiting emit storage effects].
    rewrite Hs, He. split; [reflexivity|]. split; reflexivity.
  - intros e HP. destruct (Hfail e HP) as (Ho & Hw).
    rewrite Ho. cbn [outcome world]. rewrite Hw. split; reflexivity.
Qed.

End Install.

Lemma install_opened_has_cache (w : World) :
  has_cache CACHE_NAME (storage (install_opened w)) = true.
Proof.
  unfold install_opened; simpl.
  destruct (has_cache CACHE_NAME (storage w)) eqn:Hhas; [exact Hhas|].
  rewrite has_cache_app. apply orb_true_iff. right. reflexivity.
Qed.

Lemma install_opened_entries (w : World) :
  all_entries (storage (install_opened w)) = all_entries (storage w).
Proof.
  unfold install_opened; simpl.
  destruct (has_cache CACHE_NAME (storage w)); [reflexivity|].
  rewrite all_entries_app; simpl. apply app_nil_r.
Qed.

(** C5.  A version is activated after its install step was fulfilled.  From
    any storage with distinct cache names, once install and then activate
    have run, the storage holds exactly one cache, the one named
    [CACHE_NAME] (with the entries it had), every cache of another name has
    been deleted, and [clients.claim()] is the last effect, after every
    deletion. *)
Theorem activation_leaves_current_cache_only (env : Platform) (w : World) :
  NoDup (map fst (storage w)) ->
  outcome (on_install env w) = Fulfilled tt ->
  let installed := world (on_install env w) in
  let r := on_activate installed in
  outcome r = Fulfilled tt /\
  map fst (storage (world r)) = [CACHE_NAME] /\
  storage (world r)
  = filter (fun e => String.eqb (fst e) CACHE_NAME) (storage installed) /\
  effects (world r)
  = effects installed
    ++ map CacheDelete (filter stale (map fst (storage installed)))
    ++ [ClientsClaim].
Proof.
  intros Hnd _ installed r.
  destruct (on_activate_spec installed) as (Hout & Hst & Heff).
  fold r in Hout, Hst, Heff.
  split; [exact Hout|]. split; [|split; assumption].
  rewrite Hst. pose proof (on_install_names env w) as Hnames.
  fold installed in Hnames.
  apply filter_current_unique; rewrite Hnames.
  - destruct (has_cache CACHE_NAME (storage w)) eqn:Hhas.
    + now rewrite app_nil_r.
    + apply NoDup_app; [exact Hnd|repeat constructor; tauto|].
      intros n Hn [<-|[]].
      apply has_cache_In in Hn. congruence.
  - destruct (has_cache CACHE_NAME (storage w)) eqn:Hhas.
    + rewrite app_nil_r. now apply has_cache_In.
    + apply in_or_app. right. now left.
Qed.

Lemma activation_leaves_current_cache_only_witness :
  let installed := world (on_install online_platform stale_world) in
  let r := on_activate installed in
  outcome r = Fulfilled tt /\
  map fst (storage (world r)) = [CACHE_NAME] /\
  storage (world r)
  = filter (fun e => String.eqb (fst e) CACHE_NAME) (storage installed) /\
  effects (world r)
  = effects installed
    ++ map CacheDelete (filter stale (map fst (storage installed)))
    ++ [ClientsClaim].
Proof.
  apply (activation_leaves_current_cache_only online_platform stale_world).
  - simpl. repeat constructor; simpl; intuition discriminate.
  - reflexivity.
Defined.

(** ** Notification clicks *)

Section InteractionRouter.

Variable env : Platform.

Lemma is_window_kind (c : Client) :
  is_window c = true <-> client_kind c = KWindow.
Proof.
  unfold is_window. destruct (client_kind c); split; congruence.
Qed.

Lemma find_all_false {A : Type} (f : A -> bool) (l : list A) :
  (forall x, In x l -> f x = false) -> find f l = None.
Proof.
  induction l as [|x l IH]; intros H; simpl; [reflexivity|].
  rewrite (H x (or_introl eq_refl)). apply IH.
  intros y Hy. apply H. now right.
Qed.

(** The loop focuses the first client that passes the test; after the loop,
    a window is opened when [clients.openWindow] exists. *)
Lemma focus_or_open_spec (clientList : list Client) (w : World) :
  let r := focus_or_open env clientList w in
  outcome r = Fulfilled tt /\
  effects (world r)
  = effects w ++ match find focusable_entry clientList with
                 | Some c => [ClientFocus c]
                 | None => if has_openWindow env then [OpenWindow "/"] else []
                 end.
Proof.
  induction clientList as [|c l IH]; simpl.
  - destruct (has_openWindow env); simpl; [tauto|].
    now rewrite app_nil_r.
  - unfold focusable_entry at 1.
    destruct (includes "index.html" (client_url c) && has_focus c); simpl;
      [tauto|exact IH].
Qed.

Lemma on_notificationclick_view (w : World) :
  effects (world (on_notificationclick env "view" w))
  = effects w ++ NotificationClose ::
      match find focusable_entry
              (filter (fun c => is_window c && (true || client_controlled c))
                      (open_clients env)) with
      | Some c => [ClientFocus c]
      | None => if has_openWindow env then [OpenWindow "/"] else []
      end.
Proof.
  unfold on_notificationclick, bind, clients_matchAll_window; simpl.
  match goal with
  | |- context [focus_or_open env ?l ?x] =>
      destruct (focus_or_open_spec l x) as [_ Heff]
  end.
  rewrite Heff; simpl. now rewrite <- app_assoc.
Qed.

End InteractionRouter.

(** C6 (as amended).  A click on the [view] action closes the notification,
    and then: if some open window of the application has a URL containing
    [index.html], one such window (the first in the client list) is focused
    and no window is opened; if no open window has such a URL and the
    platform provides [clients.openWindow], exactly one window is opened, at
    [/]. *)
Theorem view_click_focuses_or_opens (env : Platform) (w : World) :
  let r := on_notificationclick env "view" w in
  ((exists c, In c (open_clients env) /\ client_kind c = KWindow /\
              includes "index.html" (client_url c) = true) ->
   exists c, In c (open_clients env) /\ client_kind c = KWindow /\
             includes "index.html" (client_url c) = true /\
             effects (world r) = effects w ++ [NotificationClose; ClientFocus c]) /\
  ((forall c, In c (open_clients env) -> client_kind c = KWindow ->
              includes "index.html" (client_url c) = false) ->
   has_openWindow env = true ->
   effects (world r) = effects w ++ [NotificationClose; OpenWindow "/"]).
Proof.
  intros r. unfold r. rewrite on_notificationclick_view.
  set (windows := filter _ (open_clients env)).
  assert (Hwindows : forall c, In c windows <->
                               In c (open_clients env) /\ client_kind c = KWindow).
  { intros c. unfold windows. rewrite filter_In, andb_true_r, is_window_kind.
    reflexivity. }
  split.
  - intros (c & Hin & Hkind & Hurl).
    destruct (find focusable_entry windows) as [c0|] eqn:Hfind.
    + apply find_some in Hfind. destruct Hfind as [Hin0 Htest0].
      apply Hwindows in Hin0. destruct Hin0 as [Hin0 Hkind0].
      apply andb_true_iff in Htest0. destruct Htest0 as [Hurl0 _].
      exists c0. repeat split; assumption.
    + exfalso. pose proof (find_none _ _ Hfind c) as Hc.
      unfold focusable_entry, has_focus in Hc.
      rewrite Hurl, (proj2 (is_window_kind c) Hkind) in Hc.
      discriminate Hc. apply Hwindows. now split.
  - intros Hnone Hopen.
    rewrite (find_all_false focusable_entry windows), Hopen; [reflexivity|].
    intros c Hc. apply Hwindows in Hc. destruct Hc as [Hin Hkind].
    unfold focusable_entry. now rewrite (Hnone c Hin Hkind).
Qed.

Lemma view_click_focuses_or_opens_witness :
  (exists c, In c (open_clients two_windows_platform) /\
             client_kind c = KWindow /\
             includes "index.html" (client_url c) = true /\
             effects (world (on_notificationclick two_windows_platform "view"
                               empty_world))
             = effects empty_world ++ [NotificationClose; ClientFocus c]) /\
  effects (world (on_notificationclick offline_platform "view" empty_world))
  = effects empty_world ++ [NotificationClose; OpenWindow "/"].
Proof.
  split.
  - apply (proj1 (view_click_focuses_or_opens two_windows_platform empty_world)).
    exists (mkClient 2 "https://pix.example/index.html" KWindow false).
    split; [right; left; reflexivity|]. split; reflexivity.
  - apply (proj2 (view_click_focuses_or_opens offline_platform empty_world)).
    + intros c [].
    + reflexivity.
Defined.

(** C6 as stated fails: with no window on the entry document and a [clients]
    object without [openWindow], the guard after the loop is false and the
    click opens nothing. *)
Lemma view_click_without_openWindow_opens_nothing :
  (forall c, In c (open_clients legacy_platform) -> client_kind c = KWindow ->
             includes "index.html" (client_url c) = false) /\
  effects (world (on_notificationclick legacy_platform "view" empty_world))
  = [NotificationClose].
Proof.
  split; [|reflexivity].
  intros c [<-|[]] _. reflexivity.
Qed.

(** ** Push notifications *)

(** C8.  The notification shown for a push event has the payload text as its
    body when the event carries data, and ["Novo PIX gerado!"] when it carries
    none; exactly one notification is shown. *)
Theorem push_notification_body (w : World) :
  (forall d : PushMessageData,
     exists options,
       effects (world (on_push (Some d) w))
       = effects w ++ [ShowNotification "💰 Novo PIX!" options] /\
       opt_body options = text d) /\
  (exists options,
     effects (world (on_push None w))
     = effects w ++ [ShowNotification "💰 Novo PIX!" options] /\
     opt_body options = "Novo PIX gerado!") /\
  (exists options,
     effects (world (on_push (Some (mkPushData "R$50,00 recebido")) w))
     = effects w ++ [ShowNotification "💰 Novo PIX!" options] /\
     opt_body options = "R$50,00 recebido").
Proof.
  split; [|split].
  - intros d. exists (push_options (Some d)). split; reflexivity.
  - exists (push_options None). split; reflexivity.
  - eexists. split; reflexivity.
Qed.

(** ** Control messages *)

Section ControlChannel.

Lemma data_type_exclusive (data : JsValue) (t t' : string) :
  data_type_is data t = true -> String.eqb t t' = false ->
  data_type_is data t' = false.
Proof.
  unfold data_type_is. intros H Hne.
  apply andb_true_iff in H. destruct H as [Htruthy Heq]. rewrite Htruthy; simpl.
  destruct (get_prop data "type"); simpl in *; try reflexivity.
  apply String.eqb_eq in Heq. now subst.
Qed.

End ControlChannel.

(** C9.  A message whose data has type [PING], sent with a reply port: the
    handler completes, its only effect is one [postMessage] of
    [{ type: 'PONG', status: 'Service Worker ativo' }] on the first port the
    sender supplied; it does not call [skipWaiting], starts no other work and
    leaves the caches alone.  (It writes one line to the console.) *)
Theorem ping_replies_pong_once (data : JsValue) (port : nat) (ports : list nat)
    (w : World) :
  data_type_is data "PING" = true ->
  let r := on_message data (port :: ports) w in
  outcome r = Fulfilled tt /\
  effects (world r) = effects w ++ [PortPostMessage port PONG] /\
  get_prop PONG "type" = JStr "PONG" /\
  get_prop PONG "status" = JStr "Service Worker ativo" /\
  storage (world r) = storage w /\
  heap (world r) = heap w /\
  spawned r = [] /\
  console (world r)
  = console w ++ [[LText "[Service Worker] Mensagem recebida:"; LData data]].
Proof.
  intros Hping r. unfold r, on_message, bind; simpl.
  rewrite (data_type_exclusive data "PING" "SKIP_WAITING" Hping eq_refl); simpl.
  rewrite Hping; simpl. repeat split.
Qed.

Lemma ping_replies_pong_once_witness :
  let r := on_message ping_message [7; 8] empty_world in
  outcome r = Fulfilled tt /\
  effects (world r) = effects empty_world ++ [PortPostMessage 7 PONG] /\
  get_prop PONG "type" = JStr "PONG" /\
  get_prop PONG "status" = JStr "Service Worker ativo" /\
  storage (world r) = storage empty_world /\
  heap (world r) = heap empty_world /\
  spawned r = [] /\
  console (world r)
  = console empty_world
    ++ [[LText "[Service Worker] Mensagem recebida:"; LData ping_message]].
Proof.
  apply (ping_replies_pong_once ping_message 7 [8] empty_world).
  reflexivity.
Defined.

(** C10.  A message whose data has type [PING], sent without a reply port:
    [event.ports[0]] is [undefined], the call of [postMessage] on it throws a
    [TypeError], and no reply (no effect at all) is produced. *)
Theorem ping_without_port_throws (data : JsValue) (w : World) :
  data_type_is data "PING" = true ->
  let r := on_message data [] w in
  (exists msg, outcome r = Rejected (TypeError msg)) /\
  effects (world r) = effects w.
Proof.
  intros Hping r. unfold r, on_message, bind; simpl.
  rewrite (data_type_exclusive data "PING" "SKIP_WAITING" Hping eq_refl); simpl.
  rewrite Hping; simpl. split; [eexists; reflexivity|reflexivity].
Qed.

Lemma ping_without_port_throws_witness :
  let r := on_message ping_message [] empty_world in
  (exists msg, outcome r = Rejected (TypeError msg)) /\
  effects (world r) = effects empty_world.
Proof.
  apply (ping_without_port_throws ping_message empty_world).
  reflexivity.
Defined.

(** ** Further properties of the handlers *)

(** The promise the fetch handler gives to [respondWith] is never rejected:
    on every platform, for every request and from every world, the page
    receives a response. *)
Theorem fetch_never_rejects (env : Platform) (request : Request) (w : World) :
  exists o : ResponseObj, outcome (on_fetch env request w) = Fulfilled o.
Proof.
  destruct (storage_match request (storage w)) as [stored|] eqn:Hm.
  { rewrite (on_fetch_hit env request w stored Hm). now eexists. }
  destruct (network env request) as [resp|] eqn:Hnet.
  2:{ rewrite (on_fetch_offline env request w Hm Hnet). now eexists. }
  destruct (includes "/api/" (url request)) eqn:Hapi.
  { rewrite (on_fetch_api env request w resp Hm Hnet Hapi). now eexists. }
  destruct (Nat.eq_dec (status resp) 200) as [Hst|Hst].
  - rewrite (on_fetch_200 env request w resp Hm Hnet Hapi Hst). now eexists.
  - rewrite (on_fetch_not_200 env request w resp Hm Hnet Hapi Hst). now eexists.
Qed.

(** A network answer whose status is not 200 is handed to the page as it is
    and is not cached. *)
Theorem non_200_is_returned_uncached (env : Platform) (request : Request)
    (w : World) (resp : Response) :
  storage_match request (storage w) = None ->
  network env request = Some resp ->
  status resp <> 200 ->
  exists (o : ResponseObj) (w' : World),
    fetch_event env request w = (Fulfilled o, w') /\
    snapshot o = resp /\
    storage w' = storage w.
Proof.
  intros Hm Hnet Hst. unfold fetch_event.
  destruct (includes "/api/" (url request)) eqn:Hapi.
  - rewrite (on_fetch_api env request w resp Hm Hnet Hapi); simpl.
    eexists _, _. repeat split.
  - rewrite (on_fetch_not_200 env request w resp Hm Hnet Hapi Hst); simpl.
    eexists _, _. repeat split.
Qed.

Lemma non_200_is_returned_uncached_witness :
  exists (o : ResponseObj) (w' : World),
    fetch_event missing_platform page_request empty_world = (Fulfilled o, w') /\
    snapshot o = mkResponse 404 "Not Found" [] "not found" /\
    storage w' = storage empty_world.
Proof.
  apply (non_200_is_returned_uncached missing_platform page_request empty_world).
  - reflexivity.
  - reflexivity.
  - simpl. lia.
Defined.

(** Every click closes the notification before anything else; a click that is
    not on the [view] action does nothing more. *)
Theorem click_closes_notification (env : Platform) (event_action : string)
    (w : World) :
  let r := on_notificationclick env event_action w in
  (exists rest, effects (world r) = effects w ++ NotificationClose :: rest) /\
  (String.eqb event_action "view" = false ->
   effects (world r) = effects w ++ [NotificationClose]).
Proof.
  intros r. unfold r.
  destruct (String.eqb event_action "view") eqn:Hview.
  - apply String.eqb_eq in Hview. subst event_action.
    rewrite on_notificationclick_view. split; [now eexists|discriminate].
  - unfold on_notificationclick, bind; simpl. rewrite Hview; simpl.
    split; [now eexists|reflexivity].
Qed.

Lemma click_closes_notification_witness :
  let r := on_notificationclick two_windows_platform "close" empty_world in
  (exists rest, effects (world r) = effects empty_world ++ NotificationClose :: rest) /\
  effects (world r) = effects empty_world ++ [NotificationClose].
Proof.
  pose proof (click_closes_notification two_windows_platform "close" empty_world)
    as [Hfirst Honly].
  split; [exact Hfirst|]. apply Honly. reflexivity.
Defined.

(** A message whose data has type [SKIP_WAITING] calls [skipWaiting], once,
    and does nothing else. *)
Theorem skip_waiting_message_activates (data : JsValue) (ports : list nat)
    (w : World) :
  data_type_is data "SKIP_WAITING" = true ->
  let r := on_message data ports w in
  outcome r = Fulfilled tt /\
  effects (world r) = effects w ++ [SkipWaiting] /\
  storage (world r) = storage w.
Proof.
  intros Hskip r. unfold r, on_message, bind; simpl.
  rewrite Hskip; simpl.
  rewrite (data_type_exclusive data "SKIP_WAITING" "PING" Hskip eq_refl); simpl.
  repeat split.
Qed.

Lemma skip_waiting_message_activates_witness :
  let r := on_message skip_waiting_message [] empty_world in
  outcome r = Fulfilled tt /\
  effects (world r) = effects empty_world ++ [SkipWaiting] /\
  storage (world r) = storage empty_world.
Proof.
  apply (skip_waiting_message_activates skip_waiting_message [] empty_world).
  reflexivity.
Defined.


(** After a fulfilled install every resource of the manifest is answered from
    the cache storage; the handler fetched each of them once and called
    [skipWaiting] last. *)
Theorem install_caches_manifest (env : Platform) (w : World) :
  outcome (on_install env w) = Fulfilled tt ->
  (forall q, In q (manifest_requests env) ->
             storage_match q (storage (world (on_install env w))) <> None) /\
  effects (world (on_install env w))
  = effects w ++ map NetFetch (manifest_requests env) ++ [SkipWaiting].
Proof.
  intros Hdone.
  destruct (on_install_spec env w) as [Hok Hfail].
  destruct (addAll_fetches_spec env urlsToCache (install_opened w))
    as [HeffP HoutP].
  destruct (outcome (promise_all (map (addAll_fetch env) urlsToCache)
                                 (install_opened w))) as [pairs|e] eqn:HP.
  - destruct (Hok pairs eq_refl) as (_ & Hst & Heff).
    destruct (HoutP pairs eq_refl) as [Hkeys _]. split.
    + intros q Hq. rewrite Hst. apply fold_put_match.
      * apply install_opened_has_cache.
      * rewrite Hkeys. exact Hq.
    + rewrite Heff, HeffP. simpl. now rewrite <- app_assoc.
  - destruct (Hfail e eq_refl) as [Hrej _]. congruence.
Qed.

Lemma install_caches_manifest_witness :
  (forall q, In q (manifest_requests online_platform) ->
             storage_match q
               (storage (world (on_install online_platform stale_world)))
             <> None) /\
  effects (world (on_install online_platform stale_world))
  = effects stale_world ++ map NetFetch (manifest_requests online_platform)
                        ++ [SkipWaiting].
Proof.
  apply (install_caches_manifest online_platform stale_world).
  reflexivity.
Defined.

(** Install is all or nothing: when the network fails for one resource of the
    manifest, or answers it with a status that is not ok, the install promise
    is rejected, no cache entry has been written and [skipWaiting] has not
    been called (the only effects are the fetches). *)
Theorem install_is_all_or_nothing (env : Platform) (w : World) (q : Request) :
  In q (manifest_requests env) ->
  (forall r, network env q = Some r -> ok_status (status r) = false) ->
  (exists e, outcome (on_install env w) = Rejected e) /\
  all_entries (storage (world (on_install env w))) = all_entries (storage w) /\
  effects (world (on_install env w))
  = effects w ++ map NetFetch (manifest_requests env).
Proof.
  intros Hq Hbad.
  destruct (on_install_spec env w) as [Hok Hfail].
  destruct (addAll_fetches_spec env urlsToCache (install_opened w))
    as [HeffP HoutP].
  pose proof (promise_all_storage (map (addAll_fetch env) urlsToCache)) as Hkeep.
  destruct (outcome (promise_all (map (addAll_fetch env) urlsToCache)
                                 (install_opened w))) as [pairs|e] eqn:HP.
  - exfalso. destruct (HoutP pairs eq_refl) as [Hkeys Hall].
    fold (manifest_requests env) in Hkeys. rewrite <- Hkeys in Hq.
    apply in_map_iff in Hq. destruct Hq as [qr [<- Hqr]].
    rewrite Forall_forall in Hall. destruct (Hall qr Hqr) as [Hnet Hstatus].
    rewrite (Hbad _ Hnet) in Hstatus. discriminate.
  - destruct (Hfail e eq_refl) as [Hrej Hworld]. split; [now exists e|].
    rewrite Hworld. split.
    + rewrite Hkeep; [apply install_opened_entries|].
      intros p Hp w'. apply in_map_iff in Hp. destruct Hp as [u [<- _]].
      apply addAll_fetch_storage.
    + exact HeffP.
Qed.

Lemma install_is_all_or_nothing_witness :
  (exists e, outcome (on_install no_manifest_platform stale_world) = Rejected e) /\
  all_entries (storage (world (on_install no_manifest_platform stale_world)))
  = all_entries (storage stale_world) /\
  effects (world (on_install no_manifest_platform stale_world))
  = effects stale_world ++ map NetFetch (manifest_requests no_manifest_platform).
Proof.
  apply (install_is_all_or_nothing no_manifest_platform stale_world
           (mkRequest "GET" "https://pix.example/manifest.json")).
  - right. right. left. reflexivity.
  - intros r [= <-]. reflexivity.
Defined.

(** ** Background sync *)

(** The sync handler is a placeholder: for every tag its promise is
    fulfilled, and it neither calls into the platform nor touches the
    caches. *)
Theorem sync_always_succeeds (tag : string) (w : World) :
  let r := on_sync tag w in
  outcome r = Fulfilled tt /\
  effects (world r) = effects w /\
  storage (world r) = storage w /\
  spawned r = [].
Proof.
  unfold on_sync, checkPixStatus, bind, catch_; simpl.
  destruct (String.eqb tag "sync-pix"); simpl; repeat split.
Qed.

(** * Further properties *)

(** ** The interceptor and the cache storage *)

Section InterceptorFrame.

Variable env : Platform.

(** The detached write changes nothing but the storage and the heap: either
    the cache is opened and nothing is written, or the pair is written and
    the body of the object given to [put] is read. *)
Lemma run_detached_world (name : string) (q : Request) (o : ResponseObj)
    (w : World) :
  let w' := world (run_detached env (OpenThenPut name q o) w) in
  effects w' = effects w /\
  ((storage w' = opened name (storage w) /\ heap w' = heap w) \/
   (put_accepts env q (snapshot o) = true /\
    storage w' = put_entry name q (snapshot o) (opened name (storage w)) /\
    heap w' = mark_read (oid o) (heap w))).
Proof.
  unfold run_detached, bind, caches_open, cache_put, opened.
  destruct (has_cache name (storage w)); simpl;
    unfold bodyUsed; simpl;
    destruct (put_accepts env q (snapshot o)); simpl;
    try destruct (nth_error (heap w) (oid o)) as [[|]|]; simpl;
    (split; [reflexivity|]); try (left; split; reflexivity);
    right; repeat split.
Qed.

Lemma cache_miss_filter (q : Request) (c : Cache) :
  cache_match q c = None ->
  filter (fun e => negb (Request_eqb q (fst e))) c = c.
Proof.
  unfold cache_match. induction c as [|e c IH]; simpl; [reflexivity|].
  destruct (Request_eqb q (fst e)); simpl; [discriminate|].
  intros H. now rewrite IH.
Qed.

(** Writing a request that no cache answered removes no entry. *)
Lemma put_entry_fresh_keeps (name : string) (q : Request) (r : Response)
    (st : CacheStorage) (e : string * Request * Response) :
  storage_match q st = None ->
  In e (all_entries st) -> In e (all_entries (put_entry name q r st)).
Proof.
  unfold all_entries.
  induction st as [|[n c] st IH]; simpl; [tauto|].
  destruct (cache_match q c) eqn:Hc; [discriminate|].
  intros Hmiss. rewrite !in_app_iff. intros [H|H].
  - left. destruct (String.eqb n name); simpl; [|exact H].
    rewrite (cache_miss_filter q c Hc), map_app, in_app_iff. now left.
  - right. now apply IH.
Qed.

Lemma opened_miss (name : string) (q : Request) (st : CacheStorage) :
  storage_match q (opened name st) = storage_match q st.
Proof.
  unfold opened. destruct (has_cache name st); [reflexivity|].
  rewrite storage_match_app; simpl. now destruct (storage_match q st).
Qed.

Lemma opened_entries (name : string) (st : CacheStorage) :
  all_entries (opened name st) = all_entries st.
Proof.
  unfold opened. destruct (has_cache name st); [reflexivity|].
  rewrite all_entries_app; simpl. apply app_nil_r.
Qed.

Lemma opened_names (name : string) (st : CacheStorage) (n : string) :
  In n (map fst st) -> In n (map fst (opened name st)).
Proof.
  unfold opened. destruct (has_cache name st); [tauto|].
  rewrite map_app, in_app_iff. now left.
Qed.

Lemma cache_match_put_other (q q' : Request) (r : Response) (c : Cache) :
  Request_eqb q' q = false ->
  cache_match q' (filter (fun e => negb (Request_eqb q (fst e))) c ++ [(q, r)])
  = cache_match q' c.
Proof.
  intros Hqq.
  unfold cache_match. induction c as [|e c IH]; simpl.
  - now rewrite Hqq.
  - destruct (Request_eqb q (fst e)) eqn:He; simpl.
    + rewrite Request_eqb_sym, <- (Request_eqb_congr _ _ q' He).
      now rewrite Request_eqb_sym, Hqq.
    + destruct (Request_eqb q' (fst e)); [reflexivity|exact IH].
Qed.

(** [put] under one request changes the answer to no request that does not
    match it. *)
Lemma put_entry_other (name : string) (q q' : Request) (r : Response)
    (st : CacheStorage) :
  Request_eqb q' q = false ->
  storage_match q' (put_entry name q r st) = storage_match q' st.
Proof.
  intros Hne. induction st as [|[n c] st IH]; simpl; [reflexivity|].
  destruct (String.eqb n name); simpl.
  - rewrite (cache_match_put_other q q' r c Hne).
    destruct (cache_match q' c); [reflexivity|exact IH].
  - destruct (cache_match q' c); [reflexivity|exact IH].
Qed.

End InterceptorFrame.

(** The five paths of the fetch handler, with the equation of each. *)
Ltac fetch_paths env request w :=
  let stored := fresh "stored" in
  let resp := fresh "resp" in
  let Hm := fresh "Hm" in
  let Hnet := fresh "Hnet" in
  let Hapi := fresh "Hapi" in
  let Hst := fresh "Hst" in
  unfold fetch_event;
  destruct (storage_match request (storage w)) as [stored|] eqn:Hm;
  [ rewrite (on_fetch_hit env request w stored Hm)
  | destruct (network env request) as [resp|] eqn:Hnet;
    [ destruct (includes "/api/" (url request)) eqn:Hapi;
      [ rewrite (on_fetch_api env request w resp Hm Hnet Hapi)
      | destruct (Nat.eq_dec (status resp) 200) as [Hst|Hst];
        [ rewrite (on_fetch_200 env request w resp Hm Hnet Hapi Hst)
        | rewrite (on_fetch_not_200 env request w resp Hm Hnet Hapi Hst) ] ]
    | rewrite (on_fetch_offline env request w Hm Hnet) ] ];
  cbn [outcome spawned world settle fold_left fst snd].

(** The response the page receives always has its body unread, on every
    path of the handler and whether or not the cache took the write. *)
Theorem fetch_response_body_unread (env : Platform) (request : Request)
    (w : World) :
  exists (o : ResponseObj) (w' : World),
    fetch_event env request w = (Fulfilled o, w') /\
    bodyUsed w' o = false.
Proof.
  fetch_paths env request w;
    try (eexists _, _; split; [reflexivity|];
         unfold bodyUsed, first_object; cbn [heap oid];
         now rewrite nth_error_fresh).
  eexists _, _. split; [reflexivity|].
  match goal with
  | |- context [run_detached env (OpenThenPut ?n ?q ?o) ?x] =>
      destruct (run_detached_world env n q o x) as [_ [[_ Hh]|(_ & _ & Hh)]]
  end; unfold bodyUsed; rewrite Hh; unfold first_object; cbn [heap oid].
  - now rewrite nth_error_fresh.
  - rewrite mark_read_other by lia. now rewrite nth_error_fresh.
Qed.

(** The interceptor calls the network exactly when no cache answers the
    request, once, and with the intercepted request itself; it makes no
    other call into the platform. *)
Theorem fetch_network_call_iff_miss (env : Platform) (request : Request)
    (w : World) :
  effects (snd (fetch_event env request w))
  = effects w ++ match storage_match request (storage w) with
                 | Some _ => []
                 | None => [NetFetch request]
                 end.
Proof.
  fetch_paths env request w; cbn [effects]; try (now rewrite ?app_nil_r).
  match goal with
  | |- context [run_detached env (OpenThenPut ?n ?q ?o) ?x] =>
      destruct (run_detached_world env n q o x) as [He _]
  end. rewrite He. reflexivity.
Qed.

(** ** Control messages, in general *)

(** The message handler throws in one case only: data of type [PING] and no
    reply port.  Every other message, whatever its data (also [null],
    [undefined] or a primitive) and its ports, is handled without an error. *)
Theorem message_throws_only_on_portless_ping (data : JsValue)
    (ports : list nat) (w : World) :
  (exists e, outcome (on_message data ports w) = Rejected e) <->
  (data_type_is data "PING" = true /\ ports = []).
Proof.
  unfold on_message, bind; simpl.
  destruct (data_type_is data "SKIP_WAITING"); simpl;
    destruct (data_type_is data "PING"); simpl;
    destruct ports as [|port ports]; simpl;
    (split; [intros [e He]; (discriminate || now split)
            |intros [Hp Hn]; (discriminate || now eexists)]).
Qed.

(** A message that is neither [SKIP_WAITING] nor [PING] (its data is falsy,
    or has another [type], or none) is ignored: no call into the platform,
    no change of the caches, no error. *)
Theorem unrecognised_message_is_ignored (data : JsValue) (ports : list nat)
    (w : World) :
  truthy data = false \/
  (strict_eq_str (get_prop data "type") "SKIP_WAITING" = false /\
   strict_eq_str (get_prop data "type") "PING" = false) ->
  let r := on_message data ports w in
  outcome r = Fulfilled tt /\
  effects (world r) = effects w /\
  storage (world r) = storage w /\
  spawned r = [].
Proof.
  intros Hother.
  assert (Hskip : data_type_is data "SKIP_WAITING" = false).
  { unfold data_type_is. destruct Hother as [-> | [-> _]];
      [reflexivity|apply andb_false_r]. }
  assert (Hping : data_type_is data "PING" = false).
  { unfold data_type_is. destruct Hother as [-> | [_ ->]];
      [reflexivity|apply andb_false_r]. }
  unfold on_message, bind; simpl. rewrite Hskip, Hping; simpl.
  repeat split.
Qed.

Lemma unrecognised_message_is_ignored_witness :
  (let r := on_message JNull [7] empty_world in
   outcome r = Fulfilled tt /\
   effects (world r) = effects empty_world /\
   storage (world r) = storage empty_world /\
   spawned r = []) /\
  (let r := on_message unknown_message [] empty_world in
   outcome r = Fulfilled tt /\
   effects (world r) = effects empty_world /\
   storage (world r) = storage empty_world /\
   spawned r = []).
Proof.
  split.
  - apply (unrecognised_message_is_ignored JNull [7] empty_world).
    left. reflexivity.
  - apply (unrecognised_message_is_ignored unknown_message [] empty_world).
    right. split; reflexivity.
Defined.

(** ** Activation, in general *)

Section Activation.

Lemma all_entries_filter_current (st : CacheStorage) :
  all_entries (filter (fun nc => String.eqb (fst nc) CACHE_NAME) st)
  = filter (fun e => String.eqb (fst (fst e)) CACHE_NAME) (all_entries st).
Proof.
  unfold all_entries.
  induction st as [|[n c] st IH]; simpl; [reflexivity|].
  rewrite filter_app, <- IH.
  destruct (String.eqb n CACHE_NAME) eqn:Hn; simpl.
  - f_equal. symmetry. apply forallb_filter_id.
    apply forallb_forall. intros e He.
    apply in_map_iff in He. destruct He as [x [<- _]]. exact Hn.
  - replace (filter _ (map _ c)) with (@nil (string * Request * Response));
      [reflexivity|].
    symmetry. induction c as [|x c IHc]; simpl; [reflexivity|].
    now rewrite Hn.
Qed.

Lemma no_stale_among_current (st : CacheStorage) :
  filter stale (map fst (filter (fun nc => String.eqb (fst nc) CACHE_NAME) st)) = [].
Proof.
  induction st as [|[n c] st IH]; simpl; [reflexivity|].
  destruct (String.eqb n CACHE_NAME) eqn:Hn; simpl; [|exact IH].
  unfold stale at 1. now rewrite Hn.
Qed.

Lemma all_stale_without_current (st : CacheStorage) :
  has_cache CACHE_NAME st = false ->
  filter stale (map fst st) = map fst st.
Proof.
  intros Hno. apply forallb_filter_id, forallb_forall.
  intros n Hn. unfold stale. apply negb_true_iff.
  destruct (String.eqb n CACHE_NAME) eqn:Heq; [|reflexivity].
  apply String.eqb_eq in Heq. subst n.
  apply has_cache_In in Hn. congruence.
Qed.

End Activation.

(** Activation, from any storage: it is fulfilled, and the entries left are
    exactly the entries of the caches named [CACHE_NAME]; no entry of the
    current version is lost and every entry of another cache is gone. *)
Theorem activation_keeps_current_entries (w : World) :
  let r := on_activate w in
  outcome r = Fulfilled tt /\
  all_entries (storage (world r))
  = filter (fun e => String.eqb (fst (fst e)) CACHE_NAME)
           (all_entries (storage w)).
Proof.
  destruct (on_activate_spec w) as (Hout & Hst & _).
  cbv zeta. split; [exact Hout|].
  rewrite Hst. apply all_entries_filter_current.
Qed.

(** Activating again changes nothing: the second activation finds no stale
    cache, deletes nothing and only claims the clients. *)
Theorem second_activation_deletes_nothing (w : World) :
  let w1 := world (on_activate w) in
  let r := on_activate w1 in
  outcome r = Fulfilled tt /\
  storage (world r) = storage w1 /\
  effects (world r) = effects w1 ++ [ClientsClaim].
Proof.
  cbv zeta.
  destruct (on_activate_spec w) as (_ & Hst1 & _).
  destruct (on_activate_spec (world (on_activate w))) as (Hout & Hst & Heff).
  cbv zeta in *. split; [exact Hout|]. split.
  - rewrite Hst, Hst1, filter_twice. apply filter_ext.
    intros nc. apply andb_diag.
  - rewrite Heff, Hst1, no_stale_among_current. reflexivity.
Qed.

(** Activation does not create the cache of the current version: from a
    storage that lacks it, every cache is deleted and the storage is left
    empty. *)
Theorem activation_without_current_cache (w : World) :
  has_cache CACHE_NAME (storage w) = false ->
  let r := on_activate w in
  storage (world r) = [] /\
  effects (world r)
  = effects w ++ map CacheDelete (map fst (storage w)) ++ [ClientsClaim].
Proof.
  intros Hno. cbv zeta.
  destruct (on_activate_spec w) as (_ & Hst & Heff). cbv zeta in *.
  split.
  - rewrite Hst. apply filter_current_absent.
    intros Hin. apply has_cache_In in Hin. congruence.
  - rewrite Heff, (all_stale_without_current _ Hno). reflexivity.
Qed.

Lemma activation_without_current_cache_witness :
  let r := on_activate other_versions_world in
  storage (world r) = [] /\
  effects (world r)
  = effects other_versions_world
    ++ map CacheDelete (map fst (storage other_versions_world))
    ++ [ClientsClaim].
Proof.
  apply (activation_without_current_cache other_versions_world).
  reflexivity.
Defined.

(** ** Install, then activation *)

Section FreshManifest.

Lemma lookup_in_put_same (name : string) (q : Request) (r : Response)
    (st : CacheStorage) :
  has_cache name st = true ->
  lookup_in name q (put_entry name q r st) = Some r.
Proof.
  unfold lookup_in.
  induction st as [|[n c] st IH]; simpl; [discriminate|].
  intros Hhas. destruct (String.eqb n name) eqn:Hn; simpl; rewrite Hn.
  - simpl. rewrite cache_match_app, cache_match_purged.
    unfold cache_match; simpl. now rewrite Request_eqb_refl.
  - apply IH. rewrite String.eqb_sym, Hn in Hhas. exact Hhas.
Qed.

Lemma lookup_in_put_other (name : string) (q q' : Request) (r : Response)
    (st : CacheStorage) :
  Request_eqb q' q = false ->
  lookup_in name q' (put_entry name q r st) = lookup_in name q' st.
Proof.
  intros Hne. unfold lookup_in.
  induction st as [|[n c] st IH]; simpl; [reflexivity|].
  destruct (String.eqb n name) eqn:Hn; simpl; rewrite Hn; [|exact IH].
  simpl. now apply cache_match_put_other.
Qed.

(** A bulk write of pairs taken from a function [f] leaves the cache
    answering every request it wrote with the value of [f], when no other
    request of the write matches it. *)
Lemma fold_put_lookup (f : Request -> option Response) (name : string)
    (pairs : list (Request * Response)) (st : CacheStorage) (q : Request) :
  Forall (fun qr => f (fst qr) = Some (snd qr)) pairs ->
  (forall q', In q' (map fst pairs) -> Request_eqb q q' = true -> q' = q) ->
  has_cache name st = true ->
  In q (map fst pairs) ->
  lookup_in name q
    (fold_left (fun s qr => put_entry name (fst qr) (snd qr) s) pairs st)
  = f q.
Proof.
  assert (Hkeep : forall l s,
            Forall (fun qr => f (fst qr) = Some (snd qr)) l ->
            (forall q', In q' (map fst l) -> Request_eqb q q' = true ->
                        q' = q) ->
            has_cache name s = true ->
            lookup_in name q s = f q ->
            lookup_in name q
              (fold_left (fun s qr => put_entry name (fst qr) (snd qr) s) l s)
            = f q).
  { induction l as [|[q' r'] l IHl]; intros s Hall Hsep Hhas Hq; simpl;
      [exact Hq|].
    inversion Hall as [|x l' Hx Hl]; subst. simpl in Hx.
    apply IHl; [exact Hl| |now rewrite has_cache_put|].
    { intros q2 Hin. apply Hsep. now right. }
    destruct (Request_eqb q q') eqn:Hqq.
    - apply Hsep in Hqq; [|now left]. subst q'.
      rewrite lookup_in_put_same by exact Hhas. now rewrite Hx.
    - now rewrite lookup_in_put_other. }
  revert st. induction pairs as [|[q' r'] pairs IH];
    intros st Hall Hsep Hhas Hin; simpl in *; [destruct Hin|].
  inversion Hall as [|x l' Hx Hl]; subst. simpl in Hx.
  assert (Hsep' : forall q2, In q2 (map fst pairs) ->
                             Request_eqb q q2 = true -> q2 = q).
  { intros q2 Hin2. apply Hsep. now right. }
  destruct (Request_eqb q q') eqn:Hqq.
  - apply Hsep in Hqq; [|now left]. subst q'.
    apply Hkeep; [exact Hl|exact Hsep'|now rewrite has_cache_put|].
    rewrite lookup_in_put_same by exact Hhas. now rewrite Hx.
  - destruct Hin as [->|Hin]; [now rewrite Request_eqb_refl in Hqq|].
    apply IH; [exact Hl|exact Hsep'|now rewrite has_cache_put|exact Hin].
Qed.

Lemma strip_fragment_append (s t : string) :
  strip_fragment s = s ->
  strip_fragment (String.append s t) = String.append s (strip_fragment t).
Proof.
  induction s as [|c s IH]; simpl; [reflexivity|].
  destruct (Ascii.eqb c "#"); [discriminate|].
  intros [= H]. now rewrite IH.
Qed.

Lemma append_cancel (s t t' : string) :
  String.append s t = String.append s t' -> t = t'.
Proof.
  induction s as [|c s IH]; simpl; [tauto|]. intros [= H]. now apply IH.
Qed.

(** The requests of the manifest differ in more than a fragment: two of them
    that match are the same request. *)
Lemma manifest_requests_separate (env : Platform) (q q' : Request) :
  In q (manifest_requests env) -> In q' (manifest_requests env) ->
  Request_eqb q q' = true -> q' = q.
Proof.
  unfold manifest_requests. rewrite !in_map_iff.
  intros [u [<- Hu]] [u' [<- Hu']] Hm.
  apply Request_eqb_spec in Hm. destruct Hm as [_ Hm]. simpl in Hm.
  rewrite !(strip_fragment_append _ _ (origin_no_fragment env)) in Hm.
  apply append_cancel in Hm.
  unfold urlsToCache in Hu, Hu'. simpl in Hu, Hu'.
  repeat match goal with
         | H : _ \/ _ |- _ => destruct H as [H|H]
         | H : False |- _ => destruct H
         end; subst; try reflexivity; discriminate.
Qed.

(** Once the stale caches are gone, [caches.match] answers from the cache of
    the current version. *)
Lemma storage_match_current (q : Request) (st : CacheStorage) :
  NoDup (map fst st) ->
  storage_match q (filter (fun nc => String.eqb (fst nc) CACHE_NAME) st)
  = lookup_in CACHE_NAME q st.
Proof.
  unfold lookup_in.
  induction st as [|[n c] st IH]; simpl; [reflexivity|].
  intros Hnd. apply NoDup_cons_iff in Hnd. destruct Hnd as [Hfresh Hnd].
  destruct (String.eqb n CACHE_NAME) eqn:Hn; simpl.
  - apply String.eqb_eq in Hn. subst n.
    rewrite (filter_current_absent st Hfresh); simpl.
    now destruct (cache_match q c).
  - now apply IH.
Qed.

Lemma on_install_nodup (env : Platform) (w : World) :
  NoDup (map fst (storage w)) ->
  NoDup (map fst (storage (world (on_install env w)))).
Proof.
  intros Hnd. rewrite on_install_names.
  destruct (has_cache CACHE_NAME (storage w)) eqn:Hhas.
  - now rewrite app_nil_r.
  - apply NoDup_app; [exact Hnd|repeat constructor; tauto|].
    intros n Hn [<-|[]]. apply has_cache_In in Hn. congruence.
Qed.

End FreshManifest.

(** After a fulfilled install and the activation that follows it, a request
    for a resource of the manifest is answered from the cache with the
    response the network gave at install, whatever earlier versions had
    stored for it. *)
Theorem activated_manifest_is_fresh (env : Platform) (w : World) (q : Request) :
  NoDup (map fst (storage w)) ->
  outcome (on_install env w) = Fulfilled tt ->
  In q (manifest_requests env) ->
  exists r,
    network env q = Some r /\
    storage_match q (storage (world (on_activate (world (on_install env w)))))
    = Some r.
Proof.
  intros Hnd Hdone Hq.
  destruct (on_install_spec env w) as [Hok Hfail].
  destruct (addAll_fetches_spec env urlsToCache (install_opened w))
    as [_ HoutP].
  destruct (outcome (promise_all (map (addAll_fetch env) urlsToCache)
                                 (install_opened w))) as [pairs|e] eqn:HP.
  2:{ destruct (Hfail e eq_refl) as [Hrej _]. congruence. }
  destruct (Hok pairs eq_refl) as (_ & Hst & _).
  destruct (HoutP pairs eq_refl) as [Hkeys Hall].
  fold (manifest_requests env) in Hkeys.
  assert (Hnet : Forall (fun qr => network env (fst qr) = Some (snd qr)) pairs).
  { eapply Forall_impl; [|exact Hall]. intros qr [H _]. exact H. }
  assert (Hlook : lookup_in CACHE_NAME q (storage (world (on_install env w)))
                  = network env q).
  { rewrite Hst. apply fold_put_lookup; [exact Hnet| | |now rewrite Hkeys].
    - rewrite Hkeys. intros q'. now apply manifest_requests_separate.
    - apply install_opened_has_cache. }
  destruct (on_activate_spec (world (on_install env w))) as (_ & Hact & _).
  cbv zeta in Hact. rewrite Hact.
  rewrite storage_match_current by now apply on_install_nodup.
  rewrite Hlook.
  rewrite <- Hkeys in Hq. apply in_map_iff in Hq. destruct Hq as [qr [<- Hqr]].
  rewrite Forall_forall in Hnet. exists (snd qr). split; now apply Hnet.
Qed.

Lemma activated_manifest_is_fresh_witness :
  exists r,
    network online_platform (mkRequest "GET" "https://pix.example/index.html")
    = Some r /\
    storage_match (mkRequest "GET" "https://pix.example/index.html")
      (storage (world (on_activate (world (on_install online_platform
                                             stale_world)))))
    = Some r.
Proof.
  apply (activated_manifest_is_fresh online_platform stale_world).
  - simpl. repeat constructor; simpl; intuition discriminate.
  - reflexivity.
  - right. left. reflexivity.
Defined.

(** ** Which window a click focuses *)

Section ClickOrder.

Lemma find_app_first {A : Type} (f : A -> bool) (l1 l2 : list A) :
  find f (l1 ++ l2)
  = match find f l1 with
    | Some x => Some x
    | None => find f l2
    end.
Proof.
  induction l1 as [|x l1 IH]; simpl; [reflexivity|].
  now destruct (f x).
Qed.



End ClickOrder.

(** On a [view] click the window that is focused is the first window, in the
    order of the client list, whose URL contains [index.html]: whether this
    worker controls it or not, whatever clients come after it, and whether or
    not the platform can open windows.  Clients before it that are not
    windows, or whose URL lacks [index.html], are passed over. *)
Theorem view_click_focuses_first_match (env : Platform) (w : World)
    (before after : list Client) (c : Client) :
  open_clients env = before ++ c :: after ->
  (forall c', In c' before -> client_kind c' = KWindow ->
              includes "index.html" (client_url c') = false) ->
  client_kind c = KWindow ->
  includes "index.html" (client_url c) = true ->
  effects (world (on_notificationclick env "view" w))
  = effects w ++ [NotificationClose; ClientFocus c].
Proof.
  intros Hlist Hbefore Hkind Hurl.
  rewrite on_notificationclick_view, Hlist, filter_app, find_app_first.
  rewrite find_all_false.
  - simpl. rewrite (proj2 (is_window_kind c) Hkind); simpl.
    unfold focusable_entry, has_focus.
    now rewrite Hurl, (proj2 (is_window_kind c) Hkind).
  - intros c' Hc'. apply filter_In in Hc'. destruct Hc' as [Hin Hwin].
    apply andb_true_iff in Hwin. destruct Hwin as [Hwin _].
    unfold focusable_entry.
    now rewrite (Hbefore c' Hin (proj1 (is_window_kind c') Hwin)).
Qed.

Lemma view_click_focuses_first_match_witness :
  effects (world (on_notificationclick two_windows_platform "view" empty_world))
  = effects empty_world
    ++ [NotificationClose;
        ClientFocus (mkClient 2 "https://pix.example/index.html" KWindow false)].
Proof.
  apply (view_click_focuses_first_match two_windows_platform empty_world
           [mkClient 1 "https://pix.example/" KWindow true]
           [mkClient 3 "https://pix.example/index.html" KWorker true]).
  - reflexivity.
  - intros c' [<-|[]] _. reflexivity.
  - reflexivity.
  - reflexivity.
Defined.



(** ** Which successful responses are cached *)

Section ApiTest.

Lemma prefix_spec (needle hay : string) :
  String.prefix needle hay = true <->
  exists post, hay = String.append needle post.
Proof.
  revert hay. induction needle as [|a needle IH]; intros hay.
  - split; [intros _; now exists hay|intros _; now destruct hay].
  - destruct hay as [|b hay]; simpl.
    + split; [discriminate|intros [post H]; discriminate].
    + destruct (ascii_dec a b) as [->|Hne].
      * rewrite IH. split; intros [post H]; exists post.
        -- now rewrite H.
        -- now injection H.
      * split; [discriminate|]. intros [post H]. injection H as H _.
        congruence.
Qed.

(** [includes] is the substring test. *)
Lemma includes_spec (needle hay : string) :
  includes needle hay = true <->
  exists pre post, hay = String.append pre (String.append needle post).
Proof.
  induction hay as [|b hay IH].
  - cbn [includes]. destruct (String.prefix needle "") eqn:Hp.
    + apply prefix_spec in Hp. destruct Hp as [post Hp].
      split; [intros _|reflexivity]. now exists "", post.
    + split; [discriminate|]. intros (pre & post & H).
      destruct pre; [|discriminate]. simpl in H.
      assert (Hp' : String.prefix needle "" = true)
        by (apply prefix_spec; now exists post).
      congruence.
  - cbn [includes]. destruct (String.prefix needle (String b hay)) eqn:Hp.
    + apply prefix_spec in Hp. destruct Hp as [post Hp].
      split; [intros _|reflexivity]. now exists "", post.
    + rewrite IH. split.
      * intros (pre & post & H). exists (String b pre), post. simpl. now rewrite H.
      * intros (pre & post & H). destruct pre as [|b' pre]; simpl in H.
        -- assert (Hp' : String.prefix needle (String b hay) = true)
             by (apply prefix_spec; now exists post).
           congruence.
        -- injection H as _ H. now exists pre, post.
Qed.

End ApiTest.



(** ** Install and the caches of other versions *)

Section InstallFrame.

Lemma put_entry_other_cache (name n : string) (q q' : Request) (r r' : Response)
    (st : CacheStorage) :
  n <> name ->
  In (n, q, r) (all_entries (put_entry name q' r' st)) <->
  In (n, q, r) (all_entries st).
Proof.
  intros Hne. unfold all_entries.
  induction st as [|[m c] st IH]; simpl; [tauto|].
  rewrite !in_app_iff, IH.
  destruct (String.eqb m name) eqn:Hm; simpl; [|tauto].
  apply String.eqb_eq in Hm. subst m.
  rewrite !in_map_iff. split; (intros [[x [Hx _]]|H]; [congruence|now right]).
Qed.

Lemma fold_put_other_cache (name n : string) (q : Request) (r : Response)
    (pairs : list (Request * Response)) (st : CacheStorage) :
  n <> name ->
  In (n, q, r)
     (all_entries
        (fold_left (fun s qr => put_entry name (fst qr) (snd qr) s) pairs st)) <->
  In (n, q, r) (all_entries st).
Proof.
  intros Hne. revert st.
  induction pairs as [|qr pairs IH]; intros st; simpl; [tauto|].
  rewrite IH. now apply put_entry_other_cache.
Qed.

(** Install writes to the cache of its own version only. *)
Lemma on_install_other_entries (env : Platform) (w : World)
    (n : string) (q : Request) (r : Response) :
  n <> CACHE_NAME ->
  In (n, q, r) (all_entries (storage (world (on_install env w)))) <->
  In (n, q, r) (all_entries (storage w)).
Proof.
  intros Hne.
  destruct (on_install_spec env w) as [Hok Hfail].
  destruct (outcome (promise_all (map (addAll_fetch env) urlsToCache)
                                 (install_opened w))) as [pairs|e] eqn:HP.
  - destruct (Hok pairs eq_refl) as (_ & Hst & _).
    rewrite Hst, (fold_put_other_cache _ _ _ _ _ _ Hne).
    now rewrite install_opened_entries.
  - destruct (Hfail e eq_refl) as [_ Hworld]. rewrite Hworld.
    rewrite promise_all_storage.
    + now rewrite install_opened_entries.
    + intros p Hp w'. apply in_map_iff in Hp. destruct Hp as [u [<- _]].
      apply addAll_fetch_storage.
Qed.

End InstallFrame.

(** Install touches the cache of its own version only: whether it is
    fulfilled or rejected, the caches of every other name hold afterwards
    exactly the entries they held before. *)
Theorem install_leaves_other_caches (env : Platform) (w : World)
    (n : string) (q : Request) (r : Response) :
  n <> CACHE_NAME ->
  In (n, q, r) (all_entries (storage (world (on_install env w)))) <->
  In (n, q, r) (all_entries (storage w)).
Proof.
  apply on_install_other_entries.
Qed.

Lemma install_leaves_other_caches_witness :
  In ("pix-notifier-v0", mkRequest "GET" "https://pix.example/index.html",
      mkResponse 200 "OK" [] "<html>v0</html>")
     (all_entries (storage (world (on_install online_platform stale_world)))) <->
  In ("pix-notifier-v0", mkRequest "GET" "https://pix.example/index.html",
      mkResponse 200 "OK" [] "<html>v0</html>")
     (all_entries (storage stale_world)).
Proof.
  apply (install_leaves_other_caches online_platform stale_world).
  discriminate.
Defined.

(** * The worker between events *)

(** ** What a handler leaves alone *)

Section Frames.

Variable R : World -> World -> Prop.
Hypothesis R_refl : forall w, R w w.
Hypothesis R_trans : forall w1 w2 w3, R w1 w2 -> R w2 w3 -> R w1 w3.

Lemma within_ret {A : Type} (a : A) : within R (ret a).
Proof.
  intros w. split; [apply R_refl|reflexivity].
Qed.

Lemma within_throw {A : Type} (e : JsError) : within R (@throw A e).
Proof.
  intros w. split; [apply R_refl|reflexivity].
Qed.

Lemma within_bind {A B : Type} (p : Task A) (f : A -> Task B) :
  within R p -> (forall a, within R (f a)) -> within R (bind p f).
Proof.
  intros Hp Hf w. unfold bind. destruct (Hp w) as [HR Hs].
  destruct (outcome (p w)) as [a|e]; cbn [world spawned].
  - destruct (Hf a (world (p w))) as [HR' Hs']. split.
    + eapply R_trans; eassumption.
    + now rewrite Hs, Hs'.
  - now split.
Qed.

Lemma within_catch {A : Type} (p : Task A) (h : JsError -> Task A) :
  within R p -> (forall e, within R (h e)) -> within R (catch_ p h).
Proof.
  intros Hp Hh w. unfold catch_. destruct (Hp w) as [HR Hs].
  destruct (outcome (p w)) as [a|e]; cbn [world spawned].
  - now split.
  - destruct (Hh e (world (p w))) as [HR' Hs']. split.
    + eapply R_trans; eassumption.
    + now rewrite Hs, Hs'.
Qed.

Lemma within_promise_all {A : Type} (ps : list (Task A)) :
  (forall p, In p ps -> within R p) -> within R (promise_all ps).
Proof.
  induction ps as [|p ps IH]; intros Hps w.
  - split; [apply R_refl|reflexivity].
  - cbn [promise_all world spawned].
    destruct (Hps p (or_introl eq_refl) w) as [HR Hs].
    destruct (IH (fun q Hq => Hps q (or_intror Hq)) (world (p w))) as [HR' Hs'].
    split.
    + eapply R_trans; eassumption.
    + now rewrite Hs, Hs'.
Qed.

End Frames.

Lemma within_weaken {A : Type} (R R' : World -> World -> Prop) (t : Task A) :
  (forall w w', R w w' -> R' w w') -> within R t -> within R' t.
Proof.
  intros Hsub Ht w. destruct (Ht w) as [HR Hs]. split; [now apply Hsub|exact Hs].
Qed.

Lemma same_store_refl (w : World) : same_store w w.
Proof.
  now split.
Qed.

Lemma same_store_trans (w1 w2 w3 : World) :
  same_store w1 w2 -> same_store w2 w3 -> same_store w1 w3.
Proof.
  intros [Hs Hh] [Hs' Hh']. split; congruence.
Qed.

Lemma heap_extends_refl (w : World) : heap_extends w w.
Proof.
  exists []. now rewrite app_nil_r.
Qed.

Lemma heap_extends_trans (w1 w2 w3 : World) :
  heap_extends w1 w2 -> heap_extends w2 w3 -> heap_extends w1 w3.
Proof.
  intros [l Hl] [l' Hl']. exists (l ++ l'). now rewrite Hl', Hl, app_assoc.
Qed.

Lemma same_store_extends (w w' : World) : same_store w w' -> heap_extends w w'.
Proof.
  intros [_ Hh]. exists []. now rewrite app_nil_r.
Qed.

Ltac frame_law :=
  first [ exact same_store_refl | exact same_store_trans
        | exact heap_extends_refl | exact heap_extends_trans ].

Lemma emit_quiet (e : Effect) : within same_store (emit e).
Proof.
  intros w. repeat split.
Qed.

Lemma console_log_quiet (args : list LogArg) : within same_store (console_log args).
Proof.
  intros w. repeat split.
Qed.

(** The steps of a chain of promises, one rule per combinator. *)
Ltac quiet_steps :=
  repeat first
    [ apply emit_quiet
    | apply console_log_quiet
    | apply within_ret; frame_law
    | apply within_throw; frame_law
    | apply within_bind; [frame_law| |intros ?]
    | apply within_catch; [frame_law| |intros ?] ].

Lemma on_push_quiet (data : option PushMessageData) :
  within same_store (on_push data).
Proof.
  unfold on_push, showNotification. quiet_steps.
Qed.

Lemma focus_or_open_quiet (env : Platform) (clientList : list Client) :
  within same_store (focus_or_open env clientList).
Proof.
  induction clientList as [|c l IH]; cbn [focus_or_open].
  - destruct (has_openWindow env); unfold clients_openWindow; quiet_steps.
  - destruct (includes "index.html" (client_url c) && has_focus c);
      [unfold client_focus; quiet_steps|exact IH].
Qed.

Lemma on_notificationclick_quiet (env : Platform) (event_action : string) :
  within same_store (on_notificationclick env event_action).
Proof.
  unfold on_notificationclick. quiet_steps.
  destruct (String.eqb event_action "view"); quiet_steps.
  apply focus_or_open_quiet.
Qed.

Lemma on_notificationclose_quiet : within same_store on_notificationclose.
Proof.
  unfold on_notificationclose. quiet_steps.
Qed.

Lemma on_message_quiet (data : JsValue) (ports : list nat) :
  within same_store (on_message data ports).
Proof.
  unfold on_message, skipWaiting, port_postMessage. quiet_steps.
  - destruct (data_type_is data "SKIP_WAITING"); quiet_steps.
  - destruct (data_type_is data "PING"); [|quiet_steps].
    destruct (nth_error ports 0); quiet_steps.
Qed.

Lemma on_sync_quiet (tag : string) : within same_store (on_sync tag).
Proof.
  unfold on_sync, checkPixStatus. quiet_steps.
  destruct (String.eqb tag "sync-pix"); quiet_steps.
Qed.

(** Install and activation create response objects at most: they read the
    body of none and start no detached work. *)
Lemma emit_grows (e : Effect) : within heap_extends (emit e).
Proof.
  apply (within_weaken same_store); [exact same_store_extends|apply emit_quiet].
Qed.

Lemma console_log_grows (args : list LogArg) :
  within heap_extends (console_log args).
Proof.
  apply (within_weaken same_store);
    [exact same_store_extends|apply console_log_quiet].
Qed.

Lemma new_object_grows (r : Response) : within heap_extends (new_object r).
Proof.
  intros w. split; [now exists [false]|reflexivity].
Qed.

Lemma caches_open_grows (name : string) : within heap_extends (caches_open name).
Proof.
  intros w. unfold caches_open.
  destruct (has_cache name (storage w)); (split; [|reflexivity]);
    exists []; simpl; now rewrite app_nil_r.
Qed.

Lemma caches_delete_grows (name : string) :
  within heap_extends (caches_delete name).
Proof.
  intros w. split; [|reflexivity]. exists []; simpl. now rewrite app_nil_r.
Qed.

Ltac grow_steps :=
  repeat first
    [ apply emit_grows
    | apply console_log_grows
    | apply new_object_grows
    | apply caches_open_grows
    | apply caches_delete_grows
    | apply within_ret; frame_law
    | apply within_throw; frame_law
    | apply within_bind; [frame_law| |intros ?]
    | apply within_catch; [frame_law| |intros ?] ].

Lemma net_fetch_grows (env : Platform) (q : Request) :
  within heap_extends (net_fetch env q).
Proof.
  unfold net_fetch. grow_steps. destruct (network env q); grow_steps.
Qed.

Lemma on_install_grows (env : Platform) : within heap_extends (on_install env).
Proof.
  unfold on_install, skipWaiting, cache_addAll. grow_steps.
  - apply within_promise_all; [frame_law|frame_law|].
    intros p Hp. apply in_map_iff in Hp. destruct Hp as [u [<- _]].
    unfold addAll_fetch.
    apply within_bind; [frame_law|apply net_fetch_grows|intros resp].
    destruct (ok_status _); grow_steps.
  - intros w. split; [|reflexivity]. exists []; simpl. now rewrite app_nil_r.
Qed.

Lemma on_activate_grows : within heap_extends on_activate.
Proof.
  unfold on_activate, clients_claim. grow_steps.
  - intros w. split; [apply heap_extends_refl|reflexivity].
  - apply within_promise_all; [frame_law|frame_law|].
    intros p Hp. apply in_map_iff in Hp. destruct Hp as [n [<- _]].
    unfold delete_if_stale. destruct (negb _); grow_steps.
Qed.

(** ** The fetch handler, all paths at once *)

(** The handler never writes; it starts a write exactly on the path of a
    miss answered with status 200 outside [/api/]. *)
Lemma on_fetch_cases (env : Platform) (request : Request) (w : World) :
  let r := on_fetch env request w in
  storage (world r) = storage w /\
  ((spawned r = [] /\ heap (world r) = heap w ++ [false]) \/
   (exists resp,
      storage_match request (storage w) = None /\
      network env request = Some resp /\
      includes "/api/" (url request) = false /\
      status resp = 200 /\
      outcome r = Fulfilled (mkObj (length (heap w)) resp) /\
      spawned r = [OpenThenPut CACHE_NAME request
                     (mkObj (S (length (heap w))) resp)] /\
      heap (world r) = heap w ++ [false; false])).
Proof.
  cbv zeta.
  destruct (storage_match request (storage w)) as [stored|] eqn:Hm.
  { rewrite (on_fetch_hit env request w stored Hm). split; [reflexivity|].
    left. now split. }
  destruct (network env request) as [resp|] eqn:Hnet.
  2:{ rewrite (on_fetch_offline env request w Hm Hnet). split; [reflexivity|].
      left. now split. }
  destruct (includes "/api/" (url request)) eqn:Hapi.
  { rewrite (on_fetch_api env request w resp Hm Hnet Hapi).
    split; [reflexivity|]. left. now split. }
  destruct (Nat.eq_dec (status resp) 200) as [Hst|Hst].
  2:{ rewrite (on_fetch_not_200 env request w resp Hm Hnet Hapi Hst).
      split; [reflexivity|]. left. now split. }
  rewrite (on_fetch_200 env request w resp Hm Hnet Hapi Hst).
  split; [reflexivity|]. right. exists resp. repeat split; assumption.
Qed.

(** ** Steps of the system *)

Section Steps.

Lemma remove_nth_split {A : Type} (k : nat) (l : list A) (d : A) :
  nth_error l k = Some d ->
  exists a b, l = a ++ d :: b /\ remove_nth k l = a ++ b.
Proof.
  revert l. induction k as [|k IH]; intros [|x l]; simpl; try discriminate.
  - intros [= ->]. exists [], l. now split.
  - intros H. destruct (IH l H) as (a & b & -> & Hr).
    exists (x :: a), b. split; [reflexivity|].
    unfold remove_nth in *. cbn [firstn skipn app]. now rewrite <- Hr.
Qed.

(** What one step is: a handler that leaves storage and objects alone, an
    activation, an install, a fetch event, or a pending write running. *)
Lemma step_cases (s : System) (ev : Event) :
  (same_store (sys_world s) (sys_world (step s ev)) /\
   pending (step s ev) = pending s) \/
  (ev = EActivate /\ step s ev = handle on_activate s) \/
  (exists env, ev = EInstall env /\ step s ev = handle (on_install env) s) \/
  (exists env request,
     ev = EFetch env request /\ step s ev = handle (on_fetch env request) s) \/
  (exists env k a d b,
     ev = ESettle env k /\ pending s = a ++ d :: b /\
     step s ev = mkSystem (world (run_detached env d (sys_world s))) (a ++ b)).
Proof.
  assert (Hq : forall t : Task unit,
             within same_store t ->
             same_store (sys_world s) (sys_world (handle t s)) /\
             pending (handle t s) = pending s).
  { intros t Ht. destruct (Ht (sys_world s)) as [HR Hs].
    unfold handle; cbn [sys_world pending]. split; [exact HR|].
    rewrite Hs. apply app_nil_r. }
  destruct ev as [env| |env request|data|env act| |data ports|tag|env k];
    cbn [step].
  - right; right; left. now exists env.
  - right; left. now split.
  - right; right; right; left. now exists env, request.
  - left. apply Hq, on_push_quiet.
  - left. apply Hq, on_notificationclick_quiet.
  - left. apply Hq, on_notificationclose_quiet.
  - left. apply Hq, on_message_quiet.
  - left. apply Hq, on_sync_quiet.
  - destruct (nth_error (pending s) k) as [d|] eqn:Hk.
    + right; right; right; right.
      destruct (remove_nth_split k (pending s) d Hk) as (a & b & Hp & Hr).
      exists env, k, a, d, b. rewrite Hr. now repeat split.
    + left. split; [apply same_store_refl|reflexivity].
Qed.

(** A handler that starts nothing leaves the pending writes as they are. *)
Lemma handle_within {A : Type} (R : World -> World -> Prop) (t : Task A)
    (s : System) :
  within R t ->
  R (sys_world s) (sys_world (handle t s)) /\ pending (handle t s) = pending s.
Proof.
  intros Ht. destruct (Ht (sys_world s)) as [HR Hs].
  unfold handle; cbn [sys_world pending]. split; [exact HR|].
  rewrite Hs. apply app_nil_r.
Qed.

Lemma run_app (evs1 evs2 : list Event) (s : System) :
  run (evs1 ++ evs2) s = run evs2 (run evs1 s).
Proof.
  unfold run. apply fold_left_app.
Qed.

End Steps.

(** ** The pending writes and the response objects *)

Section PendingWrites.

Variable kept : list nat.

Lemma nth_error_extends (h l : list bool) (i : nat) (b : bool) :
  nth_error h i = Some b -> nth_error (h ++ l) i = Some b.
Proof.
  intros H. rewrite nth_error_app1; [exact H|].
  apply nth_error_Some. congruence.
Qed.

(** New objects change nothing for the pending writes. *)
Lemma writes_sound_extends (s s' : System) :
  writes_sound kept s ->
  heap_extends (sys_world s) (sys_world s') ->
  pending s' = pending s ->
  writes_sound kept s'.
Proof.
  intros (Hc & Hu & Hnd) [l Hl] Hp. unfold writes_sound, pending_objects in *.
  rewrite Hp, Hl. split; [exact Hc|]. split; [|exact Hnd].
  eapply Forall_impl; [|exact Hu]. intros i. apply nth_error_extends.
Qed.

(** A fetch handler that starts a write starts it for the clone it has just
    made. *)
Lemma writes_sound_spawn (s : System) (w' : World) (q : Request)
    (resp : Response) :
  writes_sound kept s ->
  heap w' = heap (sys_world s) ++ [false; false] ->
  writes_sound kept
    (mkSystem w'
       (pending s ++ [OpenThenPut CACHE_NAME q
                        (mkObj (S (length (heap (sys_world s)))) resp)])).
Proof.
  intros (Hc & Hu & Hnd) Hh. unfold writes_sound, pending_objects in *.
  cbn [sys_world pending]. rewrite map_app, Hh. cbn [map written_object oid].
  split; [|split].
  - apply Forall_app. split; [exact Hc|]. now repeat constructor.
  - rewrite app_assoc. apply Forall_app. split.
    + eapply Forall_impl; [|exact Hu]. intros i. apply nth_error_extends.
    + constructor; [|constructor].
      rewrite nth_error_app2 by lia.
      replace (S (length (heap (sys_world s))) - length (heap (sys_world s)))
        with 1 by lia.
      reflexivity.
  - rewrite app_assoc. apply NoDup_app; [exact Hnd|repeat constructor; tauto|].
    intros i Hi [<-|[]].
    rewrite Forall_forall in Hu. specialize (Hu _ Hi).
    assert (Hlt : S (length (heap (sys_world s))) < length (heap (sys_world s)))
      by (apply nth_error_Some; congruence).
    lia.
Qed.

(** A write that runs reads the body of its own object at most; it is
    pending no longer. *)
Lemma writes_sound_settle (env : Platform) (s : System)
    (a b : list Detached) (d : Detached) :
  writes_sound kept s ->
  pending s = a ++ d :: b ->
  writes_sound kept
    (mkSystem (world (run_detached env d (sys_world s))) (a ++ b)).
Proof.
  intros (Hc & Hu & Hnd) Hp. unfold writes_sound, pending_objects in *.
  cbn [sys_world pending]. rewrite Hp in *.
  rewrite map_app in *. cbn [map] in *.
  rewrite app_assoc in Hnd, Hu. apply NoDup_remove in Hnd.
  destruct Hnd as [Hnd Hfresh]. rewrite <- app_assoc in Hnd, Hfresh.
  apply Forall_app in Hc. destruct Hc as [Hca Hcb].
  apply Forall_cons_iff in Hcb. destruct Hcb as [_ Hcb].
  split; [apply Forall_app; now split|]. split; [|exact Hnd].
  apply Forall_forall. intros i Hi.
  assert (Hold : nth_error (heap (sys_world s)) i = Some false).
  { rewrite Forall_forall in Hu. apply Hu.
    rewrite <- app_assoc. apply in_app_iff.
    apply in_app_iff in Hi. destruct Hi as [Hi|Hi]; [now left|right].
    apply in_app_iff. apply in_app_iff in Hi.
    destruct Hi as [Hi|Hi]; [now left|right; now right]. }
  destruct d as [name q o]; cbn [written_object] in *.
  destruct (run_detached_world env name q o (sys_world s))
    as [_ [[_ Hh]|(_ & _ & Hh)]]; rewrite Hh; [exact Hold|].
  rewrite mark_read_other; [exact Hold|].
  intros Heq. apply Hfresh. rewrite Heq. exact Hi.
Qed.

(** Every step keeps the pending writes sound. *)
Lemma writes_sound_step (s : System) (ev : Event) :
  writes_sound kept s -> writes_sound kept (step s ev).
Proof.
  intros Hs.
  destruct (step_cases s ev)
    as [[Hsame Hp]|[[_ ->]|[(env & _ & ->)|[(env & request & _ & ->)
        |(env & k & a & d & b & _ & Hp & ->)]]]].
  - apply (writes_sound_extends s); [exact Hs| |exact Hp].
    now apply same_store_extends.
  - destruct (handle_within heap_extends on_activate s on_activate_grows)
      as [HR Hp].
    now apply (writes_sound_extends s).
  - destruct (handle_within heap_extends (on_install env) s
                (on_install_grows env)) as [HR Hp].
    now apply (writes_sound_extends s).
  - unfold handle.
    destruct (on_fetch_cases env request (sys_world s))
      as [_ [[Hsp Hh]|(resp & _ & _ & _ & _ & _ & Hsp & Hh)]];
      cbv zeta in *; rewrite Hsp.
    + apply (writes_sound_extends s); [exact Hs| |apply app_nil_r].
      now exists [false].
    + now apply writes_sound_spawn.
  - now apply (writes_sound_settle env s a b d).
Qed.

Lemma writes_sound_run (evs : list Event) (s : System) :
  writes_sound kept s -> writes_sound kept (run evs s).
Proof.
  unfold run. revert s. induction evs as [|ev evs IH]; intros s Hs;
    cbn [fold_left]; [exact Hs|].
  apply IH. now apply writes_sound_step.
Qed.

End PendingWrites.

Lemma writes_sound_initial (w : World) : writes_sound [] (initial w).
Proof.
  repeat split; constructor.
Qed.

(** ** What the caches of other versions answer *)

Section OtherCaches.

Lemma cache_miss_entries (q : Request) (c : Cache) :
  cache_match q c = None <->
  forall e, In e c -> Request_eqb q (fst e) = false.
Proof.
  unfold cache_match. split.
  - intros H e He.
    destruct (find (fun e => Request_eqb q (fst e)) c) eqn:Hf; [discriminate|].
    apply (find_none _ _ Hf e He).
  - intros H. now rewrite find_all_false.
Qed.

Lemma miss_unanswered (q : Request) (st : CacheStorage) :
  storage_match q st = None ->
  forall n q' r, In (n, q', r) (all_entries st) -> Request_eqb q q' = false.
Proof.
  unfold all_entries.
  induction st as [|[m c] st IH]; simpl; [tauto|].
  destruct (cache_match q c) eqn:Hc; [discriminate|].
  intros Hmiss n q' r Hin. apply in_app_iff in Hin. destruct Hin as [Hin|Hin].
  - apply in_map_iff in Hin. destruct Hin as [e [[= _ <- _] He]].
    now apply (proj1 (cache_miss_entries q c) Hc).
  - now apply (IH Hmiss n q' r).
Qed.

Lemma opened_has_cache (name : string) (st : CacheStorage) :
  has_cache name (opened name st) = true.
Proof.
  unfold opened. destruct (has_cache name st) eqn:Hhas; [exact Hhas|].
  rewrite has_cache_app. apply orb_true_iff. right.
  unfold has_cache; simpl. now rewrite String.eqb_refl.
Qed.

(** A write decides what the storage answers, when no cache of another name
    answers the request. *)
Lemma storage_match_put_named (name : string) (q : Request) (r : Response)
    (st : CacheStorage) :
  (forall n q' r', In (n, q', r') (all_entries st) -> n <> name ->
                   Request_eqb q q' = false) ->
  has_cache name st = true ->
  storage_match q (put_entry name q r st) = Some r.
Proof.
  unfold all_entries.
  induction st as [|[n c] st IH]; simpl; [discriminate|].
  intros Hun Hhas.
  destruct (String.eqb n name) eqn:Hn; simpl.
  - rewrite cache_match_app, cache_match_purged.
    unfold cache_match; simpl. now rewrite Request_eqb_refl.
  - assert (Hc : cache_match q c = None).
    { apply cache_miss_entries. intros [q' r'] He. apply (Hun n q' r').
      - apply in_app_iff. left. apply in_map_iff. now exists (q', r').
      - intros ->. now rewrite String.eqb_refl in Hn. }
    rewrite Hc. apply IH.
    + intros m q' r' Hin. apply (Hun m q' r'). apply in_app_iff. now right.
    + rewrite String.eqb_sym, Hn in Hhas. exact Hhas.
Qed.

Lemma storage_match_put_current (q : Request) (r : Response)
    (st : CacheStorage) :
  unanswered_elsewhere q st ->
  has_cache CACHE_NAME st = true ->
  storage_match q (put_entry CACHE_NAME q r st) = Some r.
Proof.
  apply storage_match_put_named.
Qed.

(** The worker adds no entry to a cache of another version. *)
Lemma other_entries_step (s : System) (ev : Event) (n : string) (q : Request)
    (r : Response) :
  Forall (fun d => written_cache d = CACHE_NAME) (pending s) ->
  n <> CACHE_NAME ->
  In (n, q, r) (all_entries (storage (sys_world (step s ev)))) ->
  In (n, q, r) (all_entries (storage (sys_world s))).
Proof.
  intros Hc Hne.
  destruct (step_cases s ev)
    as [[[Hsame _] _]|[[_ ->]|[(env & _ & ->)|[(env & request & _ & ->)
        |(env & k & a & d & b & _ & Hp & ->)]]]];
    unfold handle; cbn [sys_world].
  - now rewrite Hsame.
  - destruct (on_activate_spec (sys_world s)) as (_ & Hst & _).
    cbv zeta in Hst. rewrite Hst, all_entries_filter_current.
    intros H. now apply filter_In in H.
  - now rewrite (on_install_other_entries env (sys_world s) n q r Hne).
  - destruct (on_fetch_cases env request (sys_world s)) as [Hst _].
    cbv zeta in Hst. now rewrite Hst.
  - rewrite Hp in Hc. apply Forall_app in Hc. destruct Hc as [_ Hc].
    apply Forall_cons_iff in Hc. destruct Hc as [Hd _].
    destruct d as [name q' o]; cbn [written_cache] in Hd. subst name.
    destruct (run_detached_world env CACHE_NAME q' o (sys_world s))
      as [_ [[Hst _]|(_ & Hst & _)]]; rewrite Hst.
    + now rewrite opened_entries.
    + rewrite (put_entry_other_cache _ _ _ _ _ _ _ Hne).
      now rewrite opened_entries.
Qed.

(** The pending writes stay sound, and the caches of other versions go on
    not answering a request, through any run. *)
Lemma run_keeps_sound (kept : list nat) (q : Request) (evs : list Event)
    (s : System) :
  writes_sound kept s ->
  unanswered_elsewhere q (storage (sys_world s)) ->
  writes_sound kept (run evs s) /\
  unanswered_elsewhere q (storage (sys_world (run evs s))).
Proof.
  unfold run. revert s. induction evs as [|ev evs IH]; intros s Hs Hun;
    cbn [fold_left]; [now split|].
  apply IH; [now apply writes_sound_step|].
  intros n q' r Hin Hne. apply (Hun n q' r); [|exact Hne].
  destruct Hs as [Hc _]. now apply (other_entries_step s ev).
Qed.

(** A write that the platform accepts, of an object whose body is unread,
    stores the pair. *)
Lemma run_detached_written (env : Platform) (name : string) (q : Request)
    (o : ResponseObj) (w : World) :
  put_accepts env q (snapshot o) = true ->
  bodyUsed w o = false ->
  storage (world (run_detached env (OpenThenPut name q o) w))
  = put_entry name q (snapshot o) (opened name (storage w)).
Proof.
  intros Hacc Hused.
  unfold run_detached, bind, caches_open, cache_put, opened.
  destruct (has_cache name (storage w)); simpl;
    unfold bodyUsed in *; simpl; now rewrite Hacc, Hused.
Qed.

End OtherCaches.

(** ** The round trip through the cache *)

(** C4 (as amended).  In any world the worker can be in, take a request
    outside [/api/] that no cache answers and that the network answers with
    status 200.  Whether or not the cache will take the write: the page
    receives the network's response, the handler writes nothing itself and
    starts one write, of a clone, into the current cache, and the body of the
    page's response stays unread whatever happens afterwards, the write
    included.  Whenever that write runs, after any other events, and the
    platform accepts it: the storage then answers the request with the same
    response, so an identical request made at that moment is served from the
    cache, without a network call and without a new write, with a body equal
    to the one the first caller received. *)
Theorem fetch_success_is_cached (w0 : World) (before : list Event)
    (env : Platform) (request : Request) (resp : Response) :
  storage_match request (storage (sys_world (run before (initial w0)))) = None ->
  network env request = Some resp ->
  includes "/api/" (url request) = false ->
  status resp = 200 ->
  let s0 := run before (initial w0) in
  let r := on_fetch env request (sys_world s0) in
  exists (o clone : ResponseObj),
    let write := OpenThenPut CACHE_NAME request clone in
    outcome r = Fulfilled o /\ snapshot o = resp /\
    spawned r = [write] /\ snapshot clone = resp /\
    storage (world r) = storage (sys_world s0) /\
    forall after : list Event,
      let s := run after (step s0 (EFetch env request)) in
      bodyUsed (sys_world s) o = false /\
      (In write (pending s) ->
       forall env1 : Platform,
         let w1 := world (run_detached env1 write (sys_world s)) in
         bodyUsed w1 o = false /\
         (put_accepts env1 request resp = true ->
          storage_match request (storage w1) = Some resp /\
          forall env2 : Platform,
            let r2 := on_fetch env2 request w1 in
            exists o2,
              outcome r2 = Fulfilled o2 /\
              body (snapshot o2) = body (snapshot o) /\
              spawned r2 = [] /\
              effects (world r2) = effects w1)).
Proof.
  intros Hmiss Hnet Hapi Hst s0 r.
  pose proof (writes_sound_run [] before (initial w0) (writes_sound_initial w0))
    as Hs0.
  fold s0 in Hs0, Hmiss.
  set (len := length (heap (sys_world s0))).
  exists (mkObj len resp), (mkObj (S len) resp). cbv zeta.
  cbn [step]. unfold handle. fold r.
  assert (Hr : r = mkResult (Fulfilled (mkObj len resp))
                 [OpenThenPut CACHE_NAME request (mkObj (S len) resp)]
                 (mkWorld (storage (sys_world s0))
                          (heap (sys_world s0) ++ [false; false])
                          (console (sys_world s0))
                          (effects (sys_world s0) ++ [NetFetch request])))
    by apply (on_fetch_200 env request (sys_world s0) resp Hmiss Hnet Hapi Hst).
  rewrite Hr. cbn [outcome spawned world storage snapshot].
  do 5 (split; [reflexivity|]).
  intros after.
  set (w := mkWorld (storage (sys_world s0))
                    (heap (sys_world s0) ++ [false; false])
                    (console (sys_world s0))
                    (effects (sys_world s0) ++ [NetFetch request])).
  set (write := OpenThenPut CACHE_NAME request (mkObj (S len) resp)).
  assert (Hs1 : writes_sound [len] (mkSystem w (pending s0 ++ [write]))).
  { pose proof (writes_sound_spawn [] s0 w request resp Hs0 eq_refl) as Hsp.
    fold len write in Hsp. destruct Hsp as (Hc & Hu & Hnd).
    cbn [app] in Hu, Hnd. split; [exact Hc|]. cbn [app]. split.
    - constructor; [|exact Hu]. unfold w; cbn [sys_world heap].
      apply nth_error_fresh.
    - constructor; [|exact Hnd].
      unfold pending_objects; cbn [pending]. rewrite map_app, in_app_iff.
      cbn [map written_object oid write]. intros [Hin|[Heq|[]]]; [|lia].
      destruct Hs0 as (_ & Hu0 & _). cbn [app] in Hu0.
      rewrite Forall_forall in Hu0. specialize (Hu0 _ Hin).
      assert (Hlt : len < length (heap (sys_world s0)))
        by (apply nth_error_Some; congruence).
      unfold len in Hlt. lia. }
  assert (Hun1 : unanswered_elsewhere request
                   (storage (sys_world (mkSystem w (pending s0 ++ [write]))))).
  { intros n q' r' Hin _. now apply (miss_unanswered request _ Hmiss n q' r'). }
  destruct (run_keeps_sound [len] request after _ Hs1 Hun1) as [Hs Hun].
  set (s := run after (mkSystem w (pending s0 ++ [write]))) in *.
  destruct Hs as (Hc & Hu & Hnd). rewrite Forall_forall in Hu.
  assert (Ho : nth_error (heap (sys_world s)) len = Some false)
    by (apply Hu; now left).
  split; [unfold bodyUsed; cbn [oid]; now rewrite Ho|].
  intros Hpend env1.
  assert (Hin : In (S len) (pending_objects s)).
  { unfold pending_objects. apply in_map_iff. now exists write. }
  assert (Hclone : nth_error (heap (sys_world s)) (S len) = Some false)
    by (apply Hu; now right).
  destruct (run_detached_world env1 CACHE_NAME request (mkObj (S len) resp)
              (sys_world s)) as [_ Hcases].
  fold write in Hcases. cbv zeta in Hcases. split.
  - unfold bodyUsed; cbn [oid].
    destruct Hcases as [[_ Hh]|(_ & _ & Hh)]; rewrite Hh.
    + now rewrite Ho.
    + cbn [oid]. rewrite mark_read_other by lia. now rewrite Ho.
  - intros Hacc.
    assert (Hstored : storage_match request
                        (storage (world (run_detached env1 write (sys_world s))))
                      = Some resp).
    { unfold write. rewrite run_detached_written.
      - cbn [snapshot]. apply storage_match_put_current.
        + intros n q' r'. rewrite opened_entries. apply Hun.
        + apply opened_has_cache.
      - exact Hacc.
      - unfold bodyUsed; cbn [oid]. now rewrite Hclone. }
    split; [exact Hstored|]. intros env2.
    rewrite (on_fetch_hit env2 request _ resp Hstored).
    eexists. cbn [outcome spawned world effects first_object snapshot].
    repeat split.
Qed.

Lemma fetch_success_is_cached_witness :
  let s0 := run [] (initial empty_world) in
  let r := on_fetch online_platform page_request (sys_world s0) in
  exists (o clone : ResponseObj),
    let write := OpenThenPut CACHE_NAME page_request clone in
    outcome r = Fulfilled o /\
    snapshot o = mkResponse 200 "OK" [] "https://pix.example/app.js" /\
    spawned r = [write] /\
    snapshot clone = mkResponse 200 "OK" [] "https://pix.example/app.js" /\
    storage (world r) = storage (sys_world s0) /\
    forall after : list Event,
      let s := run after (step s0 (EFetch online_platform page_request)) in
      bodyUsed (sys_world s) o = false /\
      (In write (pending s) ->
       forall env1 : Platform,
         let w1 := world (run_detached env1 write (sys_world s)) in
         bodyUsed w1 o = false /\
         (put_accepts env1 page_request
            (mkResponse 200 "OK" [] "https://pix.example/app.js") = true ->
          storage_match page_request (storage w1)
          = Some (mkResponse 200 "OK" [] "https://pix.example/app.js") /\
          forall env2 : Platform,
            let r2 := on_fetch env2 page_request w1 in
            exists o2,
              outcome r2 = Fulfilled o2 /\
              body (snapshot o2) = body (snapshot o) /\
              spawned r2 = [] /\
              effects (world r2) = effects w1)).
Proof.
  apply (fetch_success_is_cached empty_world [] online_platform page_request);
    reflexivity.
Defined.

(** The same on one schedule, computed: the write waits while a push
    arrives, a new version is installed and activated, and then runs. *)
Example round_trip_after_other_events :
  let fetched := step (initial stale_world)
                      (EFetch online_platform page_request) in
  let s := run [EPush None; EInstall online_platform; EActivate] fetched in
  pending s
  = [OpenThenPut CACHE_NAME page_request
       (mkObj 1 (mkResponse 200 "OK" [] "https://pix.example/app.js"))] /\
  storage_match page_request (storage (sys_world s)) = None /\
  storage_match page_request
    (storage (sys_world (step s (ESettle online_platform 0))))
  = Some (mkResponse 200 "OK" [] "https://pix.example/app.js") /\
  pending (step s (ESettle online_platform 0)) = [].
Proof.
  repeat split.
Qed.

(** C4 as stated fails: a [POST] outside [/api/], answered with status 200,
    reaches [cache.put], which takes [GET] requests only; the write is
    rejected, nobody awaits it, and no entry exists afterwards. *)
Lemma post_success_is_not_cached :
  storage_match post_request (storage empty_world) = None /\
  network online_platform post_request
  = Some (mkResponse 200 "OK" [] "https://pix.example/contato") /\
  includes "/api/" (url post_request) = false /\
  fst (fetch_event online_platform post_request empty_world)
  = Fulfilled (mkObj 0 (mkResponse 200 "OK" [] "https://pix.example/contato")) /\
  storage_match post_request
    (storage (snd (fetch_event online_platform post_request empty_world))) = None.
Proof.
  repeat split.
Qed.

(** ** Which entries the worker writes *)

Section WrittenEntries.

Lemma fold_put_entries (name : string) (pairs : list (Request * Response))
    (st : CacheStorage) (e : string * Request * Response) :
  In e (all_entries
          (fold_left (fun s qr => put_entry name (fst qr) (snd qr) s) pairs st)) ->
  In e (all_entries st) \/
  exists qr, In qr pairs /\ e = (name, fst qr, snd qr).
Proof.
  revert st. induction pairs as [|qr pairs IH]; intros st; simpl; [tauto|].
  intros H. destruct (IH _ H) as [H'|[qr' [Hin ->]]].
  - apply put_entry_entries in H'. destruct H' as [H' | ->]; [now left|].
    right. exists qr. split; [now left|reflexivity].
  - right. exists qr'. split; [now right|reflexivity].
Qed.

(** An entry that is new after install is the ok answer of the network to a
    request of the manifest, in the current cache. *)
Lemma on_install_entries (env : Platform) (w : World) (n : string)
    (q : Request) (r : Response) :
  In (n, q, r) (all_entries (storage (world (on_install env w)))) ->
  In (n, q, r) (all_entries (storage w)) \/
  (n = CACHE_NAME /\ In q (manifest_requests env) /\
   network env q = Some r /\ ok_status (status r) = true).
Proof.
  destruct (on_install_spec env w) as [Hok Hfail].
  destruct (addAll_fetches_spec env urlsToCache (install_opened w))
    as [_ HoutP].
  destruct (outcome (promise_all (map (addAll_fetch env) urlsToCache)
                                 (install_opened w))) as [pairs|e] eqn:HP.
  - destruct (Hok pairs eq_refl) as (_ & Hst & _).
    destruct (HoutP pairs eq_refl) as [Hkeys Hall].
    rewrite Hst. intros H. apply fold_put_entries in H.
    destruct H as [H|[qr [Hin [= -> -> ->]]]].
    + left. now rewrite install_opened_entries in H.
    + right. rewrite Forall_forall in Hall. destruct (Hall qr Hin) as [Hnet Hs].
      repeat split; try assumption.
      unfold manifest_requests. rewrite <- Hkeys. now apply in_map.
  - destruct (Hfail e eq_refl) as [_ Hworld]. rewrite Hworld.
    rewrite promise_all_storage.
    + rewrite install_opened_entries. now left.
    + intros p Hp w'. apply in_map_iff in Hp. destruct Hp as [u [<- _]].
      apply addAll_fetch_storage.
Qed.

Lemma interceptor_entry_more (evs more : list Event) (n : string) (q : Request)
    (r : Response) :
  interceptor_entry evs n q r -> interceptor_entry (evs ++ more) n q r.
Proof.
  intros (Hn & Hs & Hapi & env & Hin & Hnet). repeat split; try assumption.
  exists env. split; [|exact Hnet]. apply in_or_app. now left.
Qed.

Lemma install_entry_more (evs more : list Event) (n : string) (q : Request)
    (r : Response) :
  install_entry evs n q r -> install_entry (evs ++ more) n q r.
Proof.
  intros (Hn & env & Hin & H). split; [exact Hn|].
  exists env. split; [|exact H]. apply in_or_app. now left.
Qed.

Variable w0 : World.

(** One step: the entries of the storage are those of [w0] and those the
    events so far wrote, and every pending write was started by a fetch event
    so far. *)
Lemma written_entries_step (done : list Event) (s : System) (ev : Event) :
  (forall n q r,
     In (n, q, r) (all_entries (storage (sys_world s))) ->
     In (n, q, r) (all_entries (storage w0)) \/
     interceptor_entry done n q r \/ install_entry done n q r) ->
  Forall (started_in done) (pending s) ->
  (forall n q r,
     In (n, q, r) (all_entries (storage (sys_world (step s ev)))) ->
     In (n, q, r) (all_entries (storage w0)) \/
     interceptor_entry (done ++ [ev]) n q r \/
     install_entry (done ++ [ev]) n q r) /\
  Forall (started_in (done ++ [ev])) (pending (step s ev)).
Proof.
  intros Hent Hpend.
  assert (Hold : forall n q r,
            In (n, q, r) (all_entries (storage (sys_world s))) ->
            In (n, q, r) (all_entries (storage w0)) \/
            interceptor_entry (done ++ [ev]) n q r \/
            install_entry (done ++ [ev]) n q r).
  { intros n q r H. destruct (Hent n q r H) as [H'|[H'|H']]; [now left| |].
    - right; left. now apply interceptor_entry_more.
    - right; right. now apply install_entry_more. }
  assert (Hpend' : Forall (started_in (done ++ [ev])) (pending s)).
  { eapply Forall_impl; [|exact Hpend]. intros d.
    apply interceptor_entry_more. }
  destruct (step_cases s ev)
    as [[[Hsame _] Hp]|[[-> Hstep]|[(env & -> & Hstep)
        |[(env & request & -> & Hstep)
        |(env & k & a & d & b & -> & Hp & Hstep)]]]].
  - rewrite Hsame, Hp. now split.
  - rewrite Hstep.
    destruct (handle_within heap_extends on_activate s on_activate_grows)
      as [_ Hp]. rewrite Hp. split; [|exact Hpend'].
    intros n q r. unfold handle; cbn [sys_world].
    destruct (on_activate_spec (sys_world s)) as (_ & Hst & _).
    cbv zeta in Hst. rewrite Hst, all_entries_filter_current.
    intros H. apply filter_In in H. now apply Hold.
  - rewrite Hstep.
    destruct (handle_within heap_extends (on_install env) s
                (on_install_grows env)) as [_ Hp].
    rewrite Hp. split; [|exact Hpend'].
    intros n q r. unfold handle; cbn [sys_world]. intros H.
    apply on_install_entries in H. destruct H as [H|(Hn & Hq & Hnet & Hs)].
    + now apply Hold.
    + right; right. split; [exact Hn|]. exists env. split; [|now repeat split].
      apply in_or_app. right. now left.
  - rewrite Hstep. unfold handle; cbn [sys_world pending].
    destruct (on_fetch_cases env request (sys_world s))
      as [Hst [[Hsp _]|(resp & _ & Hnet & Hapi & Hs & _ & Hsp & _)]];
      cbv zeta in *; rewrite Hst, Hsp.
    + rewrite app_nil_r. now split.
    + split; [exact Hold|]. apply Forall_app. split; [exact Hpend'|].
      constructor; [|constructor].
      unfold started_in; cbn [written_cache written_request written_object
                                snapshot].
      repeat split; try assumption.
      exists env. split; [|exact Hnet]. apply in_or_app. right. now left.
  - rewrite Hstep. cbn [sys_world pending]. rewrite Hp in Hpend'.
    apply Forall_app in Hpend'. destruct Hpend' as [Ha Hdb].
    apply Forall_cons_iff in Hdb. destruct Hdb as [Hd Hb].
    split; [|apply Forall_app; now split].
    intros n q r H. destruct d as [name q' o].
    apply run_detached_entries in H. destruct H as [H|[[= -> -> ->] _]].
    + now apply Hold.
    + right; left. exact Hd.
Qed.

Lemma written_entries_run (evs done : list Event) (s : System) :
  (forall n q r,
     In (n, q, r) (all_entries (storage (sys_world s))) ->
     In (n, q, r) (all_entries (storage w0)) \/
     interceptor_entry done n q r \/ install_entry done n q r) ->
  Forall (started_in done) (pending s) ->
  forall n q r,
    In (n, q, r) (all_entries (storage (sys_world (run evs s)))) ->
    In (n, q, r) (all_entries (storage w0)) \/
    interceptor_entry (done ++ evs) n q r \/
    install_entry (done ++ evs) n q r.
Proof.
  unfold run. revert done s.
  induction evs as [|ev evs IH]; intros done s Hent Hpend; cbn [fold_left].
  - now rewrite app_nil_r.
  - destruct (written_entries_step done s ev Hent Hpend) as [Hent' Hpend'].
    replace (done ++ ev :: evs) with ((done ++ [ev]) ++ evs)
      by now rewrite <- app_assoc.
    now apply IH.
Qed.

End WrittenEntries.

(** C7 (as amended).  Start the worker in any world with nothing pending and
    let any events happen, the writes of the interceptor running whenever
    they run.  An entry that is in the storage afterwards and was not there
    at the start is in the current cache, and it is either an entry of the
    interceptor, the status-200 answer of the network to a request outside
    [/api/] that a fetch event of the run was for, whatever the origin of the
    request; or an entry of an install of the run, the answer of the network,
    with an ok status, to a request of the manifest. *)
Theorem written_entries_are_successful (w : World) (evs : list Event)
    (n : string) (q : Request) (r : Response) :
  In (n, q, r) (all_entries (storage (sys_world (run evs (initial w))))) ->
  ~ In (n, q, r) (all_entries (storage w)) ->
  n = CACHE_NAME /\
  ((status r = 200 /\ includes "/api/" (url q) = false /\
    exists env, In (EFetch env q) evs /\ network env q = Some r) \/
   (exists env, In (EInstall env) evs /\ In q (manifest_requests env) /\
                network env q = Some r /\ ok_status (status r) = true)).
Proof.
  intros Hin Hnew.
  destruct (written_entries_run w evs [] (initial w)
              (fun n q r H => or_introl H) (Forall_nil _) n q r Hin)
    as [H|[(Hn & H)|(Hn & H)]]; [contradiction| |]; (split; [exact Hn|]).
  - now left.
  - now right.
Qed.

Lemma written_entries_are_successful_witness :
  CACHE_NAME = CACHE_NAME /\
  ((status (mkResponse 200 "OK" [] (url icon_request)) = 200 /\
    includes "/api/" (url icon_request) = false /\
    exists env,
      In (EFetch env icon_request)
         [EInstall proxied_platform; EFetch online_platform icon_request;
          ESettle online_platform 0] /\
      network env icon_request
      = Some (mkResponse 200 "OK" [] (url icon_request))) \/
   (exists env,
      In (EInstall env)
         [EInstall proxied_platform; EFetch online_platform icon_request;
          ESettle online_platform 0] /\
      In icon_request (manifest_requests env) /\
      network env icon_request
      = Some (mkResponse 200 "OK" [] (url icon_request)) /\
      ok_status (status (mkResponse 200 "OK" [] (url icon_request))) = true)).
Proof.
  apply (written_entries_are_successful empty_world
           [EInstall proxied_platform; EFetch online_platform icon_request;
            ESettle online_platform 0]).
  - vm_compute. do 3 right. left. reflexivity.
  - intros [].
Defined.

(** C7 as stated fails, in three ways.  A request to another origin whose
    response the worker can read (a CORS request), answered with status 200,
    is written to the cache like any other.  Install writes whatever answer
    has an ok status: here one of status 203.  And install does not test the
    URL: on a host called [api] every resource of the manifest has [/api/] in
    its URL and is cached all the same. *)
Lemma written_entries_outside_invariant :
  (same_origin online_platform icon_request = false /\
   In (CACHE_NAME, icon_request, mkResponse 200 "OK" [] (url icon_request))
      (all_entries
         (storage (sys_world (run [EFetch online_platform icon_request;
                                   ESettle online_platform 0]
                                  (initial empty_world))))) /\
   ~ In (CACHE_NAME, icon_request, mkResponse 200 "OK" [] (url icon_request))
        (all_entries (storage empty_world))) /\
  (In (CACHE_NAME, mkRequest "GET" "https://pix.example/index.html",
       mkResponse 203 "Non-Authoritative Information" []
                  "https://pix.example/index.html")
      (all_entries
         (storage (sys_world (run [EInstall proxied_platform]
                                  (initial empty_world))))) /\
   same_origin proxied_platform
     (mkRequest "GET" "https://pix.example/index.html") = true /\
   includes "/api/" "https://pix.example/index.html" = false) /\
  (In (CACHE_NAME, mkRequest "GET" "https://api/index.html",
       mkResponse 200 "OK" [] "https://api/index.html")
      (all_entries
         (storage (sys_world (run [EInstall api_host_platform]
                                  (initial empty_world))))) /\
   same_origin api_host_platform (mkRequest "GET" "https://api/index.html")
   = true /\
   includes "/api/" "https://api/index.html" = true).
Proof.
  repeat split.
  - left. reflexivity.
  - intros [].
  - right. left. reflexivity.
  - right. left. reflexivity.
Qed.

(** ** The interceptor over time *)

Section InterceptorRuns.


Lemma string_append_assoc (s t u : string) :
  String.append (String.append s t) u = String.append s (String.append t u).
Proof.
  induction s as [|c s IH]; simpl; [reflexivity|]. now rewrite IH.
Qed.

Lemma strip_fragment_split (u : string) :
  exists tail, u = String.append (strip_fragment u) tail.
Proof.
  induction u as [|c u [tail IH]]; simpl.
  - now exists "".
  - destruct (Ascii.eqb c "#").
    + now exists (String c u).
    + exists tail. simpl. now rewrite <- IH.
Qed.

(** What occurs before the fragment occurs in the URL. *)
Lemma includes_strip_fragment (needle u : string) :
  includes needle (strip_fragment u) = true -> includes needle u = true.
Proof.
  intros H. apply includes_spec in H. destruct H as (pre & post & H).
  destruct (strip_fragment_split u) as [tail Hu].
  apply includes_spec. exists pre, (String.append post tail).
  rewrite Hu at 1. rewrite H. now rewrite !string_append_assoc.
Qed.

(** A step of the interceptor in a world where a fetch event for a request
    that matches [q] starts no write, and no write for such a request is
    pending: the storage answers [q] as before, and still no such write is
    pending. *)
Lemma fetch_step_keeps_answer (q : Request) (s : System) (ev : Event) :
  fetch_step ev = true ->
  (forall env request, Request_eqb q request = true ->
                       spawned (on_fetch env request (sys_world s)) = []) ->
  Forall (fun d => Request_eqb q (written_request d) = false) (pending s) ->
  storage_match q (storage (sys_world (step s ev)))
  = storage_match q (storage (sys_world s)) /\
  Forall (fun d => Request_eqb q (written_request d) = false)
         (pending (step s ev)).
Proof.
  intros Hev Hquiet Hpend.
  destruct (step_cases s ev)
    as [[[Hsame _] Hp]|[[-> _]|[(env & -> & _)
        |[(env & request & -> & Hstep)
        |(env & k & a & d & b & -> & Hp & Hstep)]]]]; try discriminate.
  - rewrite Hsame, Hp. now split.
  - rewrite Hstep. unfold handle; cbn [sys_world pending].
    destruct (on_fetch_cases env request (sys_world s))
      as [Hst [[Hsp _]|(resp & _ & _ & _ & _ & _ & Hsp & _)]];
      cbv zeta in *; rewrite Hst, Hsp.
    + rewrite app_nil_r. now split.
    + split; [reflexivity|]. apply Forall_app. split; [exact Hpend|].
      constructor; [|constructor]. cbn [written_request].
      destruct (Request_eqb q request) eqn:Hq; [|reflexivity].
      rewrite (Hquiet env request Hq) in Hsp. discriminate.
  - rewrite Hstep. cbn [sys_world pending]. rewrite Hp in Hpend.
    apply Forall_app in Hpend. destruct Hpend as [Ha Hdb].
    apply Forall_cons_iff in Hdb. destruct Hdb as [Hd Hb].
    split; [|apply Forall_app; now split].
    destruct d as [name q' o]. cbn [written_request] in Hd.
    destruct (run_detached_world env name q' o (sys_world s))
      as [_ [[Hst _]|(_ & Hst & _)]]; rewrite Hst.
    + apply opened_miss.
    + rewrite (put_entry_other _ _ _ _ _ Hd). apply opened_miss.
Qed.

Lemma fetch_run_keeps_answer (q : Request) (evs : list Event) (s : System) :
  forallb fetch_step evs = true ->
  (forall w, storage_match q (storage w)
             = storage_match q (storage (sys_world s)) ->
             forall env request, Request_eqb q request = true ->
                                 spawned (on_fetch env request w) = []) ->
  Forall (fun d => Request_eqb q (written_request d) = false) (pending s) ->
  storage_match q (storage (sys_world (run evs s)))
  = storage_match q (storage (sys_world s)).
Proof.
  unfold run. revert s.
  induction evs as [|ev evs IH]; intros s Hevs Hquiet Hpend;
    cbn [fold_left forallb] in *; [reflexivity|].
  apply andb_true_iff in Hevs. destruct Hevs as [Hev Hevs].
  destruct (fetch_step_keeps_answer q s ev Hev (Hquiet _ eq_refl) Hpend)
    as [Hsame Hpend'].
  rewrite IH; [exact Hsame|exact Hevs| |exact Hpend'].
  intros w Hw. apply Hquiet. now rewrite Hw.
Qed.

End InterceptorRuns.

(** The interceptor removes no cache and silences no answer: through any run
    of fetch events and of the writes they started, in any order and from
    any state, every cache that exists goes on existing and every request
    the storage answers goes on being answered. *)
Theorem fetch_never_removes (evs : list Event) (s : System) :
  forallb fetch_step evs = true ->
  (forall n, In n (map fst (storage (sys_world s))) ->
             In n (map fst (storage (sys_world (run evs s))))) /\
  (forall q, storage_match q (storage (sys_world s)) <> None ->
             storage_match q (storage (sys_world (run evs s))) <> None).
Proof.
  unfold run. revert s.
  induction evs as [|ev evs IH]; intros s Hevs; cbn [fold_left forallb] in *;
    [now split|].
  apply andb_true_iff in Hevs. destruct Hevs as [Hev Hevs].
  destruct (IH (step s ev) Hevs) as [IHn IHq].
  assert (Hstep : (forall n, In n (map fst (storage (sys_world s))) ->
                             In n (map fst (storage (sys_world (step s ev))))) /\
                  (forall q, storage_match q (storage (sys_world s)) <> None ->
                             storage_match q (storage (sys_world (step s ev)))
                             <> None)).
  { destruct (step_cases s ev)
      as [[[Hsame _] _]|[[-> _]|[(env & -> & _)
          |[(env & request & -> & Hstep)
          |(env & k & a & d & b & -> & _ & Hstep)]]]]; try discriminate.
    - rewrite Hsame. now split.
    - rewrite Hstep. unfold handle; cbn [sys_world].
      destruct (on_fetch_cases env request (sys_world s)) as [Hst _].
      cbv zeta in Hst. rewrite Hst. now split.
    - rewrite Hstep. cbn [sys_world]. destruct d as [name q' o].
      destruct (run_detached_world env name q' o (sys_world s))
        as [_ [[Hst _]|(_ & Hst & _)]]; rewrite Hst; split.
      + intros n. apply opened_names.
      + intros q. now rewrite opened_miss.
      + intros n Hn. rewrite put_entry_names. now apply opened_names.
      + intros q Hq. apply put_entry_keeps_match. now rewrite opened_miss. }
  destruct Hstep as [Hn Hq]. split.
  - intros n H. now apply IHn, Hn.
  - intros q H. now apply IHq, Hq.
Qed.

Lemma fetch_never_removes_witness :
  (forall n, In n (map fst (storage (sys_world (initial hit_world)))) ->
             In n (map fst (storage (sys_world
                                       (run browsing_session
                                            (initial hit_world)))))) /\
  (forall q, storage_match q (storage (sys_world (initial hit_world))) <> None ->
             storage_match q (storage (sys_world
                                         (run browsing_session
                                              (initial hit_world)))) <> None).
Proof.
  apply (fetch_never_removes browsing_session (initial hit_world)).
  reflexivity.
Defined.

(** Two fetch events for one request, both before any write has run: both
    miss and both start a write.  The first write to run stores the answer
    the first event got; the second replaces it. *)
Example second_write_replaces_first :
  let s := run [EFetch online_platform page_request;
                EFetch updated_platform page_request;
                ESettle online_platform 0] (initial empty_world) in
  storage_match page_request (storage (sys_world s))
  = Some (mkResponse 200 "OK" [] "https://pix.example/app.js") /\
  storage_match page_request
    (storage (sys_world (step s (ESettle online_platform 0))))
  = Some (mkResponse 200 "OK" [] "v2") /\
  length (all_entries (storage (sys_world (step s (ESettle online_platform 0)))))
  = 1.
Proof.
  repeat split.
Qed.

(** A fetch event changes what the storage answers for the requests that
    match the intercepted one at most (same method, same URL up to the
    fragment): the handler writes nothing itself, and the write it starts,
    whenever and in whatever world it runs, leaves the answer to every other
    request as it was. *)
Theorem fetch_leaves_other_requests (env : Platform) (request other : Request)
    (w : World) :
  Request_eqb other request = false ->
  storage (world (on_fetch env request w)) = storage w /\
  forall (d : Detached) (env' : Platform) (w' : World),
    In d (spawned (on_fetch env request w)) ->
    storage_match other (storage (world (run_detached env' d w')))
    = storage_match other (storage w').
Proof.
  intros Hne.
  destruct (on_fetch_cases env request w)
    as [Hst [[Hsp _]|(resp & _ & _ & _ & _ & _ & Hsp & _)]];
    cbv zeta in *; rewrite Hst, Hsp; (split; [reflexivity|]);
    intros d env' w' Hd; [destruct Hd|].
  destruct Hd as [<-|[]].
  destruct (run_detached_world env' CACHE_NAME request
              (mkObj (S (length (heap w))) resp) w')
    as [_ [[Hs _]|(_ & Hs & _)]]; rewrite Hs.
  - apply opened_miss.
  - rewrite (put_entry_other _ _ _ _ _ Hne). apply opened_miss.
Qed.

Lemma fetch_leaves_other_requests_witness :
  storage (world (on_fetch online_platform page_request hit_world))
  = storage hit_world /\
  forall (d : Detached) (env' : Platform) (w' : World),
    In d (spawned (on_fetch online_platform page_request hit_world)) ->
    storage_match (mkRequest "GET" "https://pix.example/index.html")
      (storage (world (run_detached env' d w')))
    = storage_match (mkRequest "GET" "https://pix.example/index.html")
        (storage w').
Proof.
  apply (fetch_leaves_other_requests online_platform page_request
           (mkRequest "GET" "https://pix.example/index.html") hit_world).
  reflexivity.
Defined.



(** A request with [/api/] in its URL before any fragment, which the storage
    does not answer and for which no write is pending, is not answered after
    any run of fetch events and of the writes they start, in any order. *)
Theorem api_request_stays_uncached (evs : list Event) (s : System)
    (q : Request) :
  forallb fetch_step evs = true ->
  includes "/api/" (strip_fragment (url q)) = true ->
  storage_match q (storage (sys_world s)) = None ->
  Forall (fun d => Request_eqb q (written_request d) = false) (pending s) ->
  storage_match q (storage (sys_world (run evs s))) = None.
Proof.
  intros Hevs Hapi Hq Hpend.
  rewrite (fetch_run_keeps_answer q evs s Hevs); [exact Hq| |exact Hpend].
  intros w _ env request Hmatch.
  assert (Hreq : includes "/api/" (url request) = true).
  { apply includes_strip_fragment.
    apply Request_eqb_spec in Hmatch. destruct Hmatch as [_ <-]. exact Hapi. }
  destruct (on_fetch_cases env request w)
    as [_ [[Hsp _]|(resp & _ & _ & Hno & _)]]; [exact Hsp|congruence].
Qed.

Lemma api_request_stays_uncached_witness :
  storage_match (mkRequest "GET" "https://pix.example/api/pix/42")
    (storage (sys_world (run browsing_session (initial hit_world)))) = None.
Proof.
  apply (api_request_stays_uncached browsing_session (initial hit_world));
    [reflexivity|reflexivity|reflexivity|constructor].
Defined.
